(** * license-guardian: the checker of src/checker.ts, embedded and verified

    The development follows src/checker.ts function by function.

    - JavaScript strings are modelled as [string]; license identifiers are
      ASCII (SPDX), and [toUpperCase] maps the letters a-z and leaves every
      other character as it is, which is what JavaScript does on ASCII text;
      a letter outside ASCII that JavaScript maps is left as it is here.
      Where a statement compares texts up to letter case, it is the case of
      the letters a-z ([same_but_case]).
    - What [JSON.parse] returns is a [json] value.  TypeScript's annotations
      are erased at run time, so the functions below take [json] values where
      the data comes out of a parsed file, and a failing dynamic operation
      (a method call on a value that has no such method, a property read on
      [null]) is the [Throw] of the [result] type.
    - The file system, [process.cwd], [path.join] and [JSON.parse] are not
      code of the repository: they are the fields of a [World].
    - The console is the list of the calls of [console.log] and
      [console.error]; the texts of checker.ts are kept as their bytes. *)

From Stdlib Require Import String Ascii List Bool Arith Lia.
From Stdlib Require Import Numbers.DecimalString.
Import ListNotations.
Set Warnings "-register-all".
Local Open Scope string_scope.
Local Open Scope list_scope.

(** ** Results of fallible code *)

Inductive result (A : Type) : Type :=
| Ok (a : A)
| Throw.
Arguments Ok {A} a.
Arguments Throw {A}.

Definition bind {A B} (m : result A) (k : A -> result B) : result B :=
  match m with
  | Ok a => k a
  | Throw => Throw
  end.

(** [try { m } catch { h }] *)
Definition try_catch {A} (m : result A) (h : result A) : result A :=
  match m with
  | Ok a => Ok a
  | Throw => h
  end.

(** A library call that either returns or throws. *)
Definition lift {A} (o : option A) : result A :=
  match o with
  | Some a => Ok a
  | None => Throw
  end.

Declare Scope result_scope.
Delimit Scope result_scope with result.
Notation "x <- m ;; k" := (bind m (fun x => k))
  (at level 61, m at next level, right associativity) : result_scope.
Local Open Scope result_scope.

(** ** Strings *)

Definition is_lower (c : ascii) : bool :=
  ((97 <=? nat_of_ascii c) && (nat_of_ascii c <=? 122))%nat.

Definition upper_char (c : ascii) : ascii :=
  if is_lower c then ascii_of_nat (nat_of_ascii c - 32) else c.

(** [s.toUpperCase()], on text whose cased letters are the letters a to z:
    those are mapped, every other character is left as it is. *)
Fixpoint toUpperCase (s : string) : string :=
  match s with
  | EmptyString => EmptyString
  | String c s' => String (upper_char c) (toUpperCase s')
  end.

(** [s.includes(t)]: [t] occurs in [s] as a contiguous substring. *)
Fixpoint includes (s t : string) : bool :=
  String.prefix t s ||
  match s with
  | EmptyString => false
  | String _ s' => includes s' t
  end.

(** A pattern [/lit/i] is carried by its literal text.  Under the flag [i]
    two characters match when their canonical (upper case) forms agree. *)
Fixpoint match_here (lit s : string) : bool :=
  match lit, s with
  | EmptyString, _ => true
  | String _ _, EmptyString => false
  | String p lit', String c s' =>
      Ascii.eqb (upper_char p) (upper_char c) && match_here lit' s'
  end.

(** [/lit/i.test(s)]: the literal matches at some position of [s]. *)
Fixpoint regex_test_i (lit s : string) : bool :=
  match_here lit s ||
  match s with
  | EmptyString => false
  | String _ s' => regex_test_i lit s'
  end.

(** ** JSON values *)

(** A number is carried by the text [Number.prototype.toString] gives for it:
    the code never computes with a number, it only tests it for truthiness and
    interpolates it into a string.  An object is the list of its own
    properties in enumeration order. *)
Inductive json : Type :=
| JNull
| JBool (b : bool)
| JNumber (text : string)
| JString (s : string)
| JArray (items : list json)
| JObject (fields : list (string * json)).

(** A JavaScript value that may be [undefined]. *)
Definition jsval := option json.

Definition truthy (v : json) : bool :=
  match v with
  | JNull => false
  | JBool b => b
  | JNumber t => negb (String.eqb t "0")
  | JString s => negb (String.eqb s "")
  | JArray _ => true
  | JObject _ => true
  end.

(** [v || d] *)
Definition or_else (v : jsval) (d : json) : json :=
  match v with
  | Some x => if truthy x then x else d
  | None => d
  end.

Fixpoint assoc {A} (k : string) (l : list (string * A)) : option A :=
  match l with
  | [] => None
  | (k', a) :: l' => if String.eqb k' k then Some a else assoc k l'
  end.

(** [v.k] for the property names the checker reads ([allowedLicenses],
    [dependencies], [license], [version]): none of them is inherited from a
    prototype, so only an object can have one; reading a property of [null]
    throws. *)
Definition get (v : json) (k : string) : result jsval :=
  match v with
  | JNull => Throw
  | JObject fields => Ok (assoc k fields)
  | _ => Ok None
  end.

(** [String(v)], the conversion a template literal and [RegExp.test] apply.
    An array joins its items with commas ([null] items give the empty
    string); an object gives ["[object Object]"] unless it has a property
    [toString] of its own, which no JSON value can make callable. *)
Fixpoint ToString (v : json) : result string :=
  match v with
  | JNull => Ok "null"
  | JBool true => Ok "true"
  | JBool false => Ok "false"
  | JNumber t => Ok t
  | JString s => Ok s
  | JArray items =>
      (fix join_items (l : list json) : result string :=
         match l with
         | [] => Ok ""
         | x :: l' =>
             a <- match x with JNull => Ok "" | _ => ToString x end ;;
             match l' with
             | [] => Ok a
             | _ :: _ => b <- join_items l' ;; Ok (a ++ "," ++ b)%string
             end
         end) items
  | JObject fields =>
      match assoc "toString" fields with
      | Some _ => Throw
      | None => Ok "[object Object]"
      end
  end.

(** [v.toUpperCase()]: only a string has the method. *)
Definition call_toUpperCase (v : json) : result string :=
  match v with
  | JString s => Ok (toUpperCase s)
  | _ => Throw
  end.

(** [v === "lit"] *)
Definition strict_eq_string (v : json) (lit : string) : bool :=
  match v with
  | JString s => String.eqb s lit
  | _ => false
  end.

(** A [string[]] as the value it is at run time. *)
Definition string_array (l : list string) : json := JArray (map JString l).

(** ** Constants of checker.ts *)

Definition DEFAULT_ALLOWED_LICENSES : list string :=
  ["MIT"; "Apache-2.0"; "BSD-2-Clause"; "BSD-3-Clause"; "ISC"; "0BSD";
   "CC0-1.0"; "Python-2.0"; "Unlicense"].

(** The six patterns all carry the flag [i]. *)
Definition PROHIBITED_PATTERNS : list string :=
  ["GPL"; "LGPL"; "AGPL"; "SSPL"; "BUSL"; "Copyleft"].

(** ** isLicenseAllowed *)

(** [for (const pattern of patterns) if (pattern.test(license)) return false;]
    [Ok true] when some pattern matched. *)
Fixpoint some_pattern_matches (patterns : list string) (license : json)
  : result bool :=
  match patterns with
  | [] => Ok false
  | pattern :: rest =>
      s <- ToString license ;;
      if regex_test_i pattern s then Ok true
      else some_pattern_matches rest license
  end.

(** [items.some((allowed) => normalizedLicense.includes(allowed.toUpperCase()))] *)
Fixpoint some_allowed (normalizedLicense : string) (items : list json)
  : result bool :=
  match items with
  | [] => Ok false
  | allowed :: rest =>
      a <- call_toUpperCase allowed ;;
      if includes normalizedLicense a then Ok true
      else some_allowed normalizedLicense rest
  end.

Definition isLicenseAllowed (license allowedLicenses : json) : result bool :=
  if negb (truthy license) || strict_eq_string license "UNKNOWN" then Ok false
  else
    prohibited <- some_pattern_matches PROHIBITED_PATTERNS license ;;
    if prohibited then Ok false
    else
      normalizedLicense <- call_toUpperCase license ;;
      match allowedLicenses with
      | JArray items => some_allowed normalizedLicense items
      | _ => Throw
      end.

(** ** The world outside the checker *)

(** What [readdirSync(dir, {withFileTypes: true})] shows of a directory tree.
    [File] is any entry [isDirectory()] is false for (a plain file, a symbolic
    link, a socket); [Unreadable] is a directory [readdirSync] throws on
    (permission denied, deleted in the meantime); it also throws on a path
    that is no directory. *)
Inductive fsnode : Type :=
| File
| Dir (entries : list (string * fsnode))
| Unreadable.

Definition isDirectory (node : fsnode) : bool :=
  match node with
  | File => false
  | Dir _ | Unreadable => true
  end.

(** [None] stands for a call that throws. *)
Record World : Type := {
  cwd : string;                              (* process.cwd() *)
  join : list string -> string;              (* path.join(...) *)
  tree : fsnode;                             (* the tree below cwd *)
  readFileSync : string -> option string;    (* readFileSync(p, "utf-8") *)
  realpathSync : string -> option string;
  JSON_parse : string -> option json
}.

(** ** loadConfig *)

Definition loadConfig (w : World) (configPath : option string) : result json :=
  try_catch
    (let path :=
       match configPath with
       | Some p => if String.eqb p "" then join w [cwd w; ".licenserc.json"] else p
       | None => join w [cwd w; ".licenserc.json"]
       end in
     text <- lift (readFileSync w path) ;;
     config <- lift (JSON_parse w text) ;;
     allowedLicenses <- get config "allowedLicenses" ;;
     Ok (or_else allowedLicenses (string_array DEFAULT_ALLOWED_LICENSES)))
    (Ok (string_array DEFAULT_ALLOWED_LICENSES)).

(** ** Workspace discovery *)

Definition is_excluded (name : string) : bool :=
  String.eqb name "node_modules" ||
  String.eqb name ".git" ||
  String.eqb name ".turbo" ||
  String.eqb name ".next" ||
  String.eqb name "dist" ||
  String.eqb name "coverage" ||
  String.eqb name "build".

(** The [for] loop of findAllPackageJsonDirs over the entries of [dir].
    [recurse] is the function itself.  The array [results] is shared by all
    the calls: it is passed in and its contents are passed out, next to how
    the loop completed; an exception leaves the loop with the array as it
    is at that point. *)
Definition scanEntries
    (recurse : string -> fsnode -> list string -> result unit * list string)
    (join : list string -> string) (dir : string)
  : list (string * fsnode) -> list string -> result unit * list string :=
  fix loop entries results :=
    match entries with
    | [] => (Ok tt, results)
    | (name, entry) :: rest =>
        let fullPath := join [dir; name] in
        if is_excluded name then loop rest results
        else if isDirectory entry then
          match recurse fullPath entry results with
          | (Ok _, results) => loop rest results
          | (Throw, results) => (Throw, results)
          end
        else if String.eqb name "package.json" then
          loop rest (results ++ [dir])
        else loop rest results
    end.

(** [findAllPackageJsonDirs(dir, results)], with [node] what the file system
    holds at [dir].  The empty [catch] absorbs whatever the [try] block
    throws, and the function returns the array. *)
Fixpoint findAllPackageJsonDirs (join : list string -> string)
    (dir : string) (node : fsnode) (results : list string)
  : result unit * list string :=
  let '(_, results) :=
    match node with
    | File | Unreadable => (Throw, results)      (* readdirSync throws *)
    | Dir entries =>
        scanEntries (findAllPackageJsonDirs join) join dir entries results
    end in
  (Ok tt, results).

Definition getWorkspaceDirs (w : World) : result (list string) :=
  let rootDir := cwd w in
  match findAllPackageJsonDirs (join w) rootDir (tree w) [] with
  | (Ok _, allDirs) =>
      Ok (filter (fun dir => negb (String.eqb dir rootDir)) allDirs)
  | (Throw, _) => Throw
  end.

(** ** License resolution *)

Module PackageInfo.
Record t : Type := mk { license : json; version : json }.
End PackageInfo.

(** A [Record<string, PackageInfo>]: the own properties in enumeration order,
    which is insertion order, every key holding an ["@"]. *)
Definition Licenses := list (string * PackageInfo.t).

(** [obj[key] = value]: an existing property keeps its place. *)
Fixpoint obj_set {A} (key : string) (value : A) (obj : list (string * A))
  : list (string * A) :=
  match obj with
  | [] => [(key, value)]
  | (k, a) :: obj' =>
      if String.eqb k key then (k, value) :: obj'
      else (k, a) :: obj_set key value obj'
  end.

Definition index_key (i : nat) : string :=
  NilZero.string_of_uint (Nat.to_uint i).

Fixpoint indexed {A} (i : nat) (l : list A) : list (string * A) :=
  match l with
  | [] => []
  | x :: l' => (index_key i, x) :: indexed (S i) l'
  end.

Fixpoint chars (s : string) : list json :=
  match s with
  | EmptyString => []
  | String c s' => JString (String c EmptyString) :: chars s'
  end.

(** [Object.entries(v)] *)
Definition Object_entries (v : json) : result (list (string * json)) :=
  match v with
  | JNull => Throw
  | JBool _ | JNumber _ => Ok []
  | JString s => Ok (indexed 0 (chars s))
  | JArray items => Ok (indexed 0 items)
  | JObject fields => Ok fields
  end.

(** The body of the inner [try] of getLicensesFromPackageJson: the key and the
    value it assigns for the dependency [name]. *)
Definition resolveDependency (w : World) (dir name : string)
  : result (string * PackageInfo.t) :=
  let depPath := join w [dir; "node_modules"; name; "package.json"] in
  realDepPath <- lift (realpathSync w depPath) ;;
  text <- lift (readFileSync w realDepPath) ;;
  depPackageJson <- lift (JSON_parse w text) ;;
  l <- get depPackageJson "license" ;;
  let license := or_else l (JString "UNKNOWN") in
  v <- get depPackageJson "version" ;;
  let version := or_else v (JString "UNKNOWN") in
  versionText <- ToString version ;;
  Ok ((name ++ "@" ++ versionText)%string, PackageInfo.mk license version).

(** One turn of the loop over the dependencies, [try] and [catch] included. *)
Definition resolveInto (w : World) (dir : string) (licenses : Licenses)
    (entry : string * json) : Licenses :=
  match resolveDependency w dir (fst entry) with
  | Ok (key, info) => obj_set key info licenses
  | Throw => licenses
  end.

Definition getLicensesFromPackageJson (w : World) (dir : string)
  : result Licenses :=
  try_catch
    (let packageJsonPath := join w [dir; "package.json"] in
     text <- lift (readFileSync w packageJsonPath) ;;
     packageJson <- lift (JSON_parse w text) ;;
     d <- get packageJson "dependencies" ;;
     let deps := or_else d (JObject []) in
     entries <- Object_entries deps ;;
     Ok (fold_left (resolveInto w dir) entries []))
    (Ok []).

(** [Object.assign(target, source)] *)
Definition Object_assign {A} (target source : list (string * A))
  : list (string * A) :=
  fold_left (fun t kv => obj_set (fst kv) (snd kv) t) source target.

Fixpoint mergeWorkspaces (w : World) (workspaceDirs : list string)
    (allLicenses : Licenses) : result Licenses :=
  match workspaceDirs with
  | [] => Ok allLicenses
  | dir :: rest =>
      licenses <- getLicensesFromPackageJson w dir ;;
      mergeWorkspaces w rest (Object_assign allLicenses licenses)
  end.

Definition getLicenses (w : World) : result Licenses :=
  workspaceDirs <- getWorkspaceDirs w ;;
  mergeWorkspaces w workspaceDirs [].

(** ** checkLicenses *)

Module Violation.
Record t : Type := mk { package : string; license : json; version : json }.
End Violation.

Module Summary.
Record t : Type := mk { total : nat; allowed : nat; violations : nat }.
End Summary.

Module LicenseReport.
Record t : Type := mk {
  summary : Summary.t;
  allowedLicenses : json;
  licenses : Licenses;
  violations : list Violation.t
}.
End LicenseReport.

Module CheckOptions.
Record t : Type := mk { json : bool; verbose : bool; quiet : bool }.
(** [options = {}] *)
Definition default : t := mk false false false.
End CheckOptions.

(** The loop of checkLicenses over [Object.entries(licenses)]; the state is
    the summary and the violations gathered so far. *)
Fixpoint classify (allowedLicenses : json) (entries : Licenses)
    (summary : Summary.t) (violations : list Violation.t)
  : result (Summary.t * list Violation.t) :=
  match entries with
  | [] => Ok (summary, violations)
  | (packageName, info) :: rest =>
      let license := PackageInfo.license info in
      allowed <- isLicenseAllowed license allowedLicenses ;;
      if allowed then
        classify allowedLicenses rest
          (Summary.mk (Summary.total summary) (S (Summary.allowed summary))
             (Summary.violations summary))
          violations
      else
        classify allowedLicenses rest
          (Summary.mk (Summary.total summary) (Summary.allowed summary)
             (S (Summary.violations summary)))
          (violations ++
             [Violation.mk packageName
                (or_else (Some license) (JString "UNKNOWN"))
                (PackageInfo.version info)])
  end.

(** The report checkLicenses returns.  What it prints to the console is
    left out; the options choose only that. *)
Definition checkLicenses (w : World) (options : CheckOptions.t)
  : result LicenseReport.t :=
  allowedLicenses <- loadConfig w None ;;
  _ <- (if CheckOptions.verbose options && negb (CheckOptions.json options)
           && negb (CheckOptions.quiet options)
        then workspaceDirs <- getWorkspaceDirs w ;; Ok tt
        else Ok tt) ;;
  licenses <- getLicenses w ;;
  r <- classify allowedLicenses licenses
         (Summary.mk (List.length licenses) 0 0) [] ;;
  Ok (LicenseReport.mk (fst r) allowedLicenses licenses (snd r)).

(** ** Vocabulary of the statements *)

(** *** Licenses and the config file *)

(** [L] matches one of the prohibited patterns. *)
Definition matches_prohibited (L : string) : bool :=
  existsb (fun pattern => regex_test_i pattern L) PROHIBITED_PATTERNS.

(** [t] occurs in [s]. *)
Definition contains (s t : string) : Prop :=
  exists pre post, s = (pre ++ t ++ post)%string.

(** [s] and [t] are the same text but for the case of the letters a to z:
    they have one length and their characters agree once those letters are
    put in upper case, every other character being compared as it is. *)
Fixpoint same_but_case (s t : string) : bool :=
  match s, t with
  | EmptyString, EmptyString => true
  | String c s', String d t' =>
      Ascii.eqb (upper_char c) (upper_char d) && same_but_case s' t'
  | _, _ => false
  end.

(** The file loadConfig reads. *)
Definition config_path (w : World) (configPath : option string) : string :=
  match configPath with
  | Some p => if String.eqb p "" then join w [cwd w; ".licenserc.json"] else p
  | None => join w [cwd w; ".licenserc.json"]
  end.

(** What reading and parsing that file gives; [None] when either throws. *)
Definition parsed_config (w : World) (configPath : option string)
  : option json :=
  match readFileSync w (config_path w configPath) with
  | Some text => JSON_parse w text
  | None => None
  end.

Definition is_string (v : json) : bool :=
  match v with
  | JString _ => true
  | _ => false
  end.

(** The shape types.ts declares for the file, as far as loadConfig looks:
    an object whose [allowedLicenses], if it has one, is an array of
    strings. *)
Definition has_config_shape (config : json) : bool :=
  match config with
  | JObject fields =>
      match assoc "allowedLicenses" fields with
      | None => true
      | Some (JArray items) => forallb is_string items
      | Some _ => false
      end
  | _ => false
  end.

(** *** Discovery *)

(** What a call on an empty array finds. *)
Definition discovered (join : list string -> string) (dir : string)
    (node : fsnode) : list string :=
  snd (findAllPackageJsonDirs join dir node []).

(** What one entry of [dir] adds to the array. *)
Definition contribution (join : list string -> string) (dir : string)
    (e : string * fsnode) : list string :=
  if is_excluded (fst e) then []
  else if isDirectory (snd e) then discovered join (join [dir; fst e]) (snd e)
  else if String.eqb (fst e) "package.json" then [dir]
  else [].

(** [reaches node chain n]: following the entry names of [chain] downwards
    from [node] leads to [n]. *)
Inductive reaches : fsnode -> list string -> fsnode -> Prop :=
| reaches_here (n : fsnode) : reaches n [] n
| reaches_down (entries : list (string * fsnode)) (name : string)
    (child : fsnode) (chain : list string) (n : fsnode) :
    In (name, child) entries -> reaches child chain n ->
    reaches (Dir entries) (name :: chain) n.

(** The path of the place [chain] leads to from [root]. *)
Definition path_of (join : list string -> string) (root : string)
    (chain : list string) : string :=
  fold_left (fun dir name => join [dir; name]) chain root.

(** Every place of a tree, as the chain of names that leads to it. *)
Fixpoint locations (node : fsnode) : list (list string) :=
  [] ::
  match node with
  | Dir entries =>
      flat_map (fun e => map (cons (fst e)) (locations (snd e))) entries
  | File | Unreadable => []
  end.

Definition has_excluded (chain : list string) : bool :=
  existsb is_excluded chain.

(** The tree with whatever lies below an excluded name taken away. *)
Fixpoint cut_excluded (node : fsnode) : fsnode :=
  match node with
  | Dir entries =>
      Dir (map (fun e => (fst e, if is_excluded (fst e) then Unreadable
                                 else cut_excluded (snd e))) entries)
  | File => File
  | Unreadable => Unreadable
  end.

(** No string occurs twice in [l]. *)
Fixpoint distinct (l : list string) : bool :=
  match l with
  | [] => true
  | x :: l' => negb (existsb (String.eqb x) l') && distinct l'
  end.

(** The name holds no slash. *)
Fixpoint slash_free (name : string) : bool :=
  match name with
  | EmptyString => true
  | String c name' => negb (Ascii.eqb c "/") && slash_free name'
  end.

(** A tree as a file system has it: within a directory no name occurs twice,
    and no name holds a slash. *)
Fixpoint well_named (node : fsnode) : bool :=
  match node with
  | Dir entries =>
      distinct (map fst entries) &&
      forallb (fun e => slash_free (fst e) && well_named (snd e)) entries
  | File | Unreadable => true
  end.

(** The workspaces of a tree, each as the chain of names that leads to it, in
    the order findAllPackageJsonDirs meets them. *)
Fixpoint workspace_chains (node : fsnode) : list (list string) :=
  match node with
  | Dir entries =>
      flat_map
        (fun e =>
           if is_excluded (fst e) then []
           else if isDirectory (snd e) then
             map (cons (fst e)) (workspace_chains (snd e))
           else if String.eqb (fst e) "package.json" then [[]]
           else [])
        entries
  | File | Unreadable => []
  end.

(** *** Resolution and evaluation *)

(** The entries of the [dependencies] of the descriptor of [dir], as the
    loop of getLicensesFromPackageJson goes through them. *)
Definition declared (w : World) (dir : string) : result (list (string * json)) :=
  text <- lift (readFileSync w (join w [dir; "package.json"])) ;;
  packageJson <- lift (JSON_parse w text) ;;
  d <- get packageJson "dependencies" ;;
  Object_entries (or_else d (JObject [])).

(** The parsed descriptor of the package installed for [name] in [dir]. *)
Definition installed (w : World) (dir name : string) : result json :=
  realDepPath <-
    lift (realpathSync w (join w [dir; "node_modules"; name; "package.json"])) ;;
  text <- lift (readFileSync w realDepPath) ;;
  lift (JSON_parse w text).

(** Every parsed file that has a [license] has a string there. *)
Definition licenses_are_strings (w : World) : Prop :=
  forall text value l,
    JSON_parse w text = Some value -> get value "license" = Ok (Some l) ->
    is_string l = true.

(** Two parsed values that every property read other than that of
    [devDependencies] tells nothing apart. *)
Definition same_but_devDependencies (a b : json) : Prop :=
  forall k, k <> "devDependencies" -> get a k = get b k.

(** Two worlds that are the same but for what the [devDependencies] of
    parsed files hold. *)
Definition same_but_devDependencies_world (w w' : World) : Prop :=
  cwd w' = cwd w /\ join w' = join w /\ tree w' = tree w /\
  readFileSync w' = readFileSync w /\ realpathSync w' = realpathSync w /\
  forall text,
    match JSON_parse w text, JSON_parse w' text with
    | Some a, Some b => same_but_devDependencies a b
    | None, None => True
    | _, _ => False
    end.

(** A mapping as a JavaScript object holds it: no key twice, and every
    license a truthy value. *)
Definition well_formed (licenses : Licenses) : Prop :=
  NoDup (map fst licenses) /\
  Forall (fun e => truthy (PackageInfo.license (snd e)) = true) licenses.

(** The entry is rejected by the allowlist. *)
Definition rejected (allowedLicenses : json) (e : string * PackageInfo.t)
  : bool :=
  match isLicenseAllowed (PackageInfo.license (snd e)) allowedLicenses with
  | Ok false => true
  | _ => false
  end.

(** The entry is accepted by the allowlist. *)
Definition accepted (allowedLicenses : json) (e : string * PackageInfo.t)
  : bool :=
  match isLicenseAllowed (PackageInfo.license (snd e)) allowedLicenses with
  | Ok true => true
  | _ => false
  end.

(** The violation recorded for an entry. *)
Definition violation_of (e : string * PackageInfo.t) : Violation.t :=
  Violation.mk (fst e) (PackageInfo.license (snd e))
    (PackageInfo.version (snd e)).

(** The keys the declared dependencies resolve to, in declaration order. *)
Definition resolved_keys (w : World) (dir : string)
    (entries : list (string * json)) : list string :=
  flat_map
    (fun e =>
       match resolveDependency w dir (fst e) with
       | Ok (key, _) => [key]
       | Throw => []
       end)
    entries.

(** [l] without the later occurrences of what it holds. *)
Definition first_occurrences (l : list string) : list string :=
  fold_left
    (fun seen k => if existsb (String.eqb k) seen then seen else seen ++ [k])
    l [].

(** ** Worlds to run the code in *)

(** [path.join] on segments that need no normalising. *)
Definition posix_join (segments : list string) : string :=
  String.concat "/" segments.

Definition table {A} (rows : list (string * A)) (key : string) : option A :=
  assoc key rows.

(** A project whose config file gives [allowedLicenses] as one string
    instead of an array.  File texts are opaque here: [JSON_parse] maps them
    to the value they denote. *)
Definition world_string_config : World := {|
  cwd := "/proj";
  join := posix_join;
  tree := Dir [(".licenserc.json", File)];
  readFileSync := table [("/proj/.licenserc.json", "{allowedLicenses: MIT}")];
  realpathSync := fun p => Some p;
  JSON_parse :=
    table [("{allowedLicenses: MIT}",
            JObject [("allowedLicenses", JString "MIT")])]
|}.

(** A project whose config file allows MIT only. *)
Definition world_mit_only : World := {|
  cwd := "/proj";
  join := posix_join;
  tree := Dir [(".licenserc.json", File)];
  readFileSync := table [("/proj/.licenserc.json", "{allowedLicenses: [MIT]}")];
  realpathSync := fun p => Some p;
  JSON_parse :=
    table [("{allowedLicenses: [MIT]}",
            JObject [("allowedLicenses", JArray [JString "MIT"])])]
|}.

(** A project tree: a descriptor at the root, two workspaces under [apps]
    (one holding an installed package and one a build output, each with a
    descriptor of its own), and a directory that cannot be read. *)
Definition sample_tree : fsnode :=
  Dir [("package.json", File);
       ("apps",
        Dir [("app1",
              Dir [("package.json", File);
                   ("node_modules",
                    Dir [("mit-pkg", Dir [("package.json", File)])])]);
             ("secret", Unreadable);
             ("app2",
              Dir [("package.json", File);
                   ("dist", Dir [("package.json", File)])])])].

Definition world_sample_tree : World := {|
  cwd := "/proj";
  join := posix_join;
  tree := sample_tree;
  readFileSync := fun _ => None;
  realpathSync := fun p => Some p;
  JSON_parse := fun _ => None
|}.

(** A monorepo with two workspaces and no config file.  [app1] declares four
    dependencies, of which [gpl-pkg] is under the GPL, [bare-pkg] declares no
    license and [absent-pkg] is not installed, and one development
    dependency, which is installed; [app2] declares [mit-pkg] again. *)
Definition monorepo_tree : fsnode :=
  Dir [("package.json", File);
       ("apps",
        Dir [("app1",
              Dir [("package.json", File);
                   ("node_modules",
                    Dir [("mit-pkg", Dir [("package.json", File)]);
                         ("gpl-pkg", Dir [("package.json", File)]);
                         ("bare-pkg", Dir [("package.json", File)]);
                         ("dev-pkg", Dir [("package.json", File)])])]);
             ("app2",
              Dir [("package.json", File);
                   ("node_modules",
                    Dir [("mit-pkg", Dir [("package.json", File)])])])])].

Definition app1_descriptor : json :=
  JObject [("name", JString "app1");
           ("dependencies",
            JObject [("mit-pkg", JString "^1.0.0");
                     ("gpl-pkg", JString "^1.0.0");
                     ("bare-pkg", JString "^2.0.0");
                     ("absent-pkg", JString "*")]);
           ("devDependencies", JObject [("dev-pkg", JString "^3.0.0")])].

(** The descriptor of [app1] without its development dependencies. *)
Definition app1_descriptor_no_dev : json :=
  JObject [("name", JString "app1");
           ("dependencies",
            JObject [("mit-pkg", JString "^1.0.0");
                     ("gpl-pkg", JString "^1.0.0");
                     ("bare-pkg", JString "^2.0.0");
                     ("absent-pkg", JString "*")])].

Definition app2_descriptor : json :=
  JObject [("name", JString "app2");
           ("dependencies", JObject [("mit-pkg", JString "^1.0.0")])].

Definition installed_descriptor (name version : string) (license : jsval)
  : json :=
  JObject ([("name", JString name); ("version", JString version)] ++
           match license with
           | Some l => [("license", l)]
           | None => []
           end).

Definition monorepo_files : list (string * string) :=
  [("/proj/package.json", "root");
   ("/proj/apps/app1/package.json", "app1");
   ("/proj/apps/app2/package.json", "app2");
   ("/proj/apps/app1/node_modules/mit-pkg/package.json", "mit-pkg");
   ("/proj/apps/app1/node_modules/gpl-pkg/package.json", "gpl-pkg");
   ("/proj/apps/app1/node_modules/bare-pkg/package.json", "bare-pkg");
   ("/proj/apps/app1/node_modules/dev-pkg/package.json", "dev-pkg");
   ("/proj/apps/app2/node_modules/mit-pkg/package.json", "mit-pkg")].

(** File texts are opaque: each is named after the descriptor it encodes. *)
Definition monorepo_parse (app1 : json) : list (string * json) :=
  [("root", JObject [("name", JString "root")]);
   ("app1", app1);
   ("app2", app2_descriptor);
   ("mit-pkg", installed_descriptor "mit-pkg" "1.0.0" (Some (JString "MIT")));
   ("gpl-pkg", installed_descriptor "gpl-pkg" "1.0.0" (Some (JString "GPL-3.0")));
   ("bare-pkg", installed_descriptor "bare-pkg" "2.1.0" None);
   ("dev-pkg", installed_descriptor "dev-pkg" "3.0.0" (Some (JString "MIT")))].

Definition world_monorepo_with (app1 : json) : World := {|
  cwd := "/proj";
  join := posix_join;
  tree := monorepo_tree;
  readFileSync := table monorepo_files;
  realpathSync := fun p =>
    match table monorepo_files p with
    | Some _ => Some p
    | None => None
    end;
  JSON_parse := table (monorepo_parse app1)
|}.

Definition world_monorepo : World := world_monorepo_with app1_descriptor.

Definition monorepo_licenses : Licenses :=
  [("mit-pkg@1.0.0", PackageInfo.mk (JString "MIT") (JString "1.0.0"));
   ("gpl-pkg@1.0.0", PackageInfo.mk (JString "GPL-3.0") (JString "1.0.0"));
   ("bare-pkg@2.1.0", PackageInfo.mk (JString "UNKNOWN") (JString "2.1.0"))].

Definition monorepo_report : LicenseReport.t :=
  LicenseReport.mk
    (Summary.mk 3 1 2)
    (string_array DEFAULT_ALLOWED_LICENSES)
    monorepo_licenses
    [Violation.mk "gpl-pkg@1.0.0" (JString "GPL-3.0") (JString "1.0.0");
     Violation.mk "bare-pkg@2.1.0" (JString "UNKNOWN") (JString "2.1.0")].

(** A monorepo whose workspaces [app1] and [app2] both declare [dup] and
    have the same version of it installed, each in its own [node_modules]:
    the descriptor installed for [app1] declares no license, the one
    installed for [app2] declares MIT.  [app3] declares [mit-pkg] and [odd];
    the descriptor installed for [odd] declares no license, and its version
    is an object that no conversion to a string accepts. *)
Definition clash_tree : fsnode :=
  Dir [("package.json", File);
       ("apps",
        Dir [("app1",
              Dir [("package.json", File);
                   ("node_modules",
                    Dir [("dup", Dir [("package.json", File)])])]);
             ("app2",
              Dir [("package.json", File);
                   ("node_modules",
                    Dir [("dup", Dir [("package.json", File)])])]);
             ("app3",
              Dir [("package.json", File);
                   ("node_modules",
                    Dir [("mit-pkg", Dir [("package.json", File)]);
                         ("odd", Dir [("package.json", File)])])])])].

(** [{"name": "odd", "version": {"toString": 1}}] *)
Definition odd_descriptor : json :=
  JObject [("name", JString "odd");
           ("version", JObject [("toString", JNumber "1")])].

Definition clash_files : list (string * string) :=
  [("/proj/package.json", "root");
   ("/proj/apps/app1/package.json", "app-dup");
   ("/proj/apps/app2/package.json", "app-dup");
   ("/proj/apps/app3/package.json", "app-mit");
   ("/proj/apps/app1/node_modules/dup/package.json", "dup-bare");
   ("/proj/apps/app2/node_modules/dup/package.json", "dup-mit");
   ("/proj/apps/app3/node_modules/mit-pkg/package.json", "mit-pkg");
   ("/proj/apps/app3/node_modules/odd/package.json", "odd")].

Definition clash_parse : list (string * json) :=
  [("root", JObject [("name", JString "root")]);
   ("app-dup", JObject [("dependencies", JObject [("dup", JString "^1.0.0")])]);
   ("app-mit",
    JObject [("dependencies",
              JObject [("mit-pkg", JString "^1.0.0");
                       ("odd", JString "*")])]);
   ("dup-bare", installed_descriptor "dup" "1.0.0" None);
   ("dup-mit", installed_descriptor "dup" "1.0.0" (Some (JString "MIT")));
   ("mit-pkg", installed_descriptor "mit-pkg" "1.0.0" (Some (JString "MIT")));
   ("odd", odd_descriptor)].

Definition world_clash : World := {|
  cwd := "/proj";
  join := posix_join;
  tree := clash_tree;
  readFileSync := table clash_files;
  realpathSync := fun p =>
    match table clash_files p with
    | Some _ => Some p
    | None => None
    end;
  JSON_parse := table clash_parse
|}.



(** ** The console, and cli.ts *)

(** checkLicenses again, now with what it writes: the calls of [console.log]
    and [console.error] in order, each with the text it is given (the empty
    text for a call without argument).  The texts are the bytes of the
    literals of checker.ts.  [JSON.stringify(report, null, 2)] is a
    parameter.  An exception leaves the console as it is at that point.
    The function is cut into its blocks: the verbose block, the building of
    the report, and the printing that follows, with the summary and the
    failure lines apart. *)
Module Console.

Inductive stream : Type :=
| Log
| Error.

Definition t := list (stream * string).

Definition io (A : Type) : Type := t -> result A * t.

Definition ret {A} (a : A) : io A := fun out => (Ok a, out).

Definition bind {A B} (m : io A) (k : A -> io B) : io B :=
  fun out =>
    match m out with
    | (Ok a, out') => k a out'
    | (Throw, out') => (Throw, out')
    end.

(** A computation that writes nothing. *)
Definition pure {A} (r : result A) : io A := fun out => (r, out).

Definition log (text : string) : io unit :=
  fun out => (Ok tt, out ++ [(Log, text)]).

Definition error (text : string) : io unit :=
  fun out => (Ok tt, out ++ [(Error, text)]).

Fixpoint for_each {A} (l : list A) (body : A -> io unit) : io unit :=
  match l with
  | [] => ret tt
  | x :: l' => bind (body x) (fun _ => for_each l' body)
  end.

Definition nl : string := String (ascii_of_nat 10) EmptyString.

(** [String(n)] for a count. *)
Definition Number_toString (n : nat) : string :=
  NilZero.string_of_uint (Nat.to_uint n).

Fixpoint skip (n : nat) (s : string) : string :=
  match n, s with
  | S n', String _ s' => skip n' s'
  | _, _ => s
  end.

(** [s.replace(pattern, empty)] for a string [pattern]: the first occurrence
    goes. *)
Fixpoint remove_first (pattern s : string) : string :=
  if String.prefix pattern s then skip (String.length pattern) s
  else
    match s with
    | EmptyString => EmptyString
    | String c s' => String c (remove_first pattern s')
    end.

(** [sep] between the texts of the items, [null] giving the empty text. *)
Fixpoint join_items (sep : string) (items : list json) : result string :=
  match items with
  | [] => Ok EmptyString
  | x :: rest =>
      (a <- match x with JNull => Ok EmptyString | _ => ToString x end ;;
       match rest with
       | [] => Ok a
       | _ :: _ => b <- join_items sep rest ;; Ok (a ++ sep ++ b)%string
       end)%result
  end.

(** [v.join(sep)]: only an array has the method. *)
Definition call_join (v : json) (sep : string) : result string :=
  match v with
  | JArray items => join_items sep items
  | _ => Throw
  end.

Definition SEPARATOR_WIDTH : nat := 70.

(** [s.repeat(n)] *)
Fixpoint repeat_string (s : string) (n : nat) : string :=
  match n with
  | O => EmptyString
  | S n' => (s ++ repeat_string s n')%string
  end.

Declare Scope io_scope.
Delimit Scope io_scope with io.
Notation "x <- m ;; k" := (bind m (fun x => k))
  (at level 61, m at next level, right associativity) : io_scope.
Notation "m ;; k" := (bind m (fun _ => k))
  (at level 61, right associativity) : io_scope.

(** The lines about one violation. *)
Definition print_violation (v : Violation.t) : io unit :=
  (error ("  ❌ " ++ Violation.package v) ;;
   version <- pure (ToString (Violation.version v)) ;;
   error ("     Version: " ++ version) ;;
   license <- pure (ToString (Violation.license v)) ;;
   error ("     License: " ++ license) ;;
   error "")%io.

(** The block of checkLicenses that lists the workspaces in verbose mode. *)
Definition listWorkspaces (w : World) : io unit :=
  (workspaceDirs <- pure (getWorkspaceDirs w) ;;
   let cwd := cwd w in
   log (nl ++ "📁 Found " ++ Number_toString (length workspaceDirs)
           ++ " workspace(s):" ++ nl) ;;
   for_each workspaceDirs
     (fun dir => log ("  • " ++ remove_first (cwd ++ "/") dir)) ;;
   log "")%io.

(** The lines of checkLicenses that open a run that is not quiet. *)
Definition printSummary (allowedLicenses : json) (summary : Summary.t)
  : io unit :=
  (log ("🔍 Checking dependency licenses for commercial compatibility..."
          ++ nl) ;;
   allowedText <- pure (call_join allowedLicenses ", ") ;;
   log ("✅ Allowed licenses: " ++ allowedText) ;;
   log ("📊 Total packages: " ++ Number_toString (Summary.total summary)) ;;
   log ("✓  Compatible: " ++ Number_toString (Summary.allowed summary)) ;;
   log ("✗  Violations: "
          ++ Number_toString (Summary.violations summary) ++ nl))%io.

(** The lines of checkLicenses about a failed check. *)
Definition printFailure (allowedLicenses : json)
    (violations : list Violation.t) : io unit :=
  (let separator := repeat_string "=" SEPARATOR_WIDTH in
   error (nl ++ separator) ;;
   error "❌ LICENSE COMPLIANCE CHECK FAILED" ;;
   error separator ;;
   error (nl ++ "Found " ++ Number_toString (length violations)
            ++ " package(s) with non-compliant licenses:" ++ nl) ;;
   for_each violations print_violation ;;
   error "⚠️  REASON FOR FAILURE:" ;;
   error ("   These licenses are incompatible with commercial/proprietary use."
            ++ nl) ;;
   error "📋 ALLOWED LICENSES:" ;;
   allowedText <- pure (call_join allowedLicenses ", ") ;;
   error ("   " ++ allowedText ++ nl) ;;
   error "🔧 ACTIONS REQUIRED:" ;;
   error "   1. Remove the packages with non-compliant licenses" ;;
   error "   2. Find alternative packages with compatible licenses" ;;
   error ("   3. Or obtain legal approval before proceeding" ++ nl) ;;
   error separator ;;
   error "BUILD FAILED - License compliance check failed" ;;
   error (separator ++ nl))%io.

(** What checkLicenses does once it has built the report: it prints, and
    returns the report. *)
Definition present (JSON_stringify : LicenseReport.t -> string)
    (options : CheckOptions.t) (report : LicenseReport.t)
  : io LicenseReport.t :=
  (let json := CheckOptions.json options in
   let quiet := CheckOptions.quiet options in
   let summary := LicenseReport.summary report in
   let allowedLicenses := LicenseReport.allowedLicenses report in
   let violations := LicenseReport.violations report in
   if json then
     log (JSON_stringify report) ;;
     ret report
   else if quiet && (length violations =? 0)%nat then
     ret report
   else
     (if negb quiet then printSummary allowedLicenses summary else ret tt) ;;
     (if (0 <? length violations)%nat then
        printFailure allowedLicenses violations
      else if negb quiet then
        log ("✅ All dependencies have commercially compatible licenses!"
               ++ nl)
      else ret tt) ;;
     ret report)%io.

Definition checkLicenses (JSON_stringify : LicenseReport.t -> string)
    (w : World) (options : CheckOptions.t) : io LicenseReport.t :=
  (allowedLicenses <- pure (loadConfig w None) ;;
   (if CheckOptions.verbose options && negb (CheckOptions.json options)
         && negb (CheckOptions.quiet options)
    then listWorkspaces w
    else ret tt) ;;
   licenses <- pure (getLicenses w) ;;
   r <- pure (classify allowedLicenses licenses
               (Summary.mk (length licenses) 0 0) []) ;;
   present JSON_stringify options
     (LicenseReport.mk (fst r) allowedLicenses licenses (snd r)))%io.

(** [main] of cli.ts, with [argv] for [process.argv]; the value is the code
    it gives to [process.exit].  An exception of checkLicenses is not caught. *)
Definition main (JSON_stringify : LicenseReport.t -> string) (w : World)
    (argv : list string) : io nat :=
  (let isJsonMode := existsb (String.eqb "--json") argv in
   let isVerbose := existsb (String.eqb "--verbose") argv in
   let isQuiet := existsb (String.eqb "--quiet") argv in
   report <- checkLicenses JSON_stringify w
               (CheckOptions.mk isJsonMode isVerbose isQuiet) ;;
   ret (if (0 <? length (LicenseReport.violations report))%nat then 1 else 0))%io.

End Console.

(** ** Vocabulary of the console *)

(** Whatever the console holds, [m] leaves it there and adds entries that
    satisfy [P]. *)
Definition writes {A} (P : Console.stream * string -> Prop) (m : Console.io A)
  : Prop :=
  forall out, exists written, snd (m out) = out ++ written /\ Forall P written.

Definition is_log (entry : Console.stream * string) : Prop :=
  fst entry = Console.Log.

(** The options [main] reads off the command line. *)
Definition options_of_argv (argv : list string) : CheckOptions.t :=
  CheckOptions.mk (existsb (String.eqb "--json") argv)
    (existsb (String.eqb "--verbose") argv)
    (existsb (String.eqb "--quiet") argv).

(** Both texts of the violation can be made. *)
Definition printable (v : Violation.t) : Prop :=
  (exists text, ToString (Violation.version v) = Ok text) /\
  (exists text, ToString (Violation.license v) = Ok text).

(** * Properties *)

(** ** Strings *)

Lemma prefix_app (t s : string) :
  String.prefix t s = true <-> exists post, s = (t ++ post)%string.
Proof.
  revert s. induction t as [|c t IH]; intros s.
  - split; [intros _; now exists s | intros _; now destruct s].
  - destruct s as [|d s]; simpl.
    + split; [discriminate | intros [post H]; discriminate].
    + destruct (ascii_dec c d) as [->|Hcd].
      * rewrite IH. split; intros [post H]; exists post.
        -- now rewrite H.
        -- now inversion H.
      * split; [discriminate | intros [post H]; inversion H; congruence].
Qed.

Lemma includes_contains (s t : string) :
  includes s t = true <-> contains s t.
Proof.
  unfold contains. induction s as [|c s IH]; cbn [includes].
  - rewrite orb_false_r, prefix_app. split.
    + intros [post H]. now exists "", post.
    + intros (pre & post & H). destruct pre; simpl in H.
      * now exists post.
      * discriminate.
  - rewrite orb_true_iff, prefix_app, IH. split.
    + intros [[post H] | (pre & post & H)].
      * now exists "", post.
      * exists (String c pre), post. simpl. now rewrite H.
    + intros (pre & post & H). destruct pre as [|d pre]; simpl in H.
      * left. now exists post.
      * right. inversion H. now exists pre, post.
Qed.

Lemma includes_empty (s : string) : includes s "" = true.
Proof. destruct s; reflexivity. Qed.

(** ** isLicenseAllowed *)

Lemma some_pattern_matches_string (patterns : list string) (L : string) :
  some_pattern_matches patterns (JString L) =
  Ok (existsb (fun pattern => regex_test_i pattern L) patterns).
Proof.
  induction patterns as [|p ps IH]; simpl; [reflexivity|].
  destruct (regex_test_i p L); [reflexivity | exact IH].
Qed.

Lemma some_allowed_strings (n : string) (allow : list string) :
  some_allowed n (map JString allow) =
  Ok (existsb (fun a => includes n (toUpperCase a)) allow).
Proof.
  induction allow as [|a al IH]; simpl; [reflexivity|].
  destruct (includes n (toUpperCase a)); [reflexivity | exact IH].
Qed.

(** What isLicenseAllowed computes on a string and a list of strings. *)
Lemma isLicenseAllowed_strings (L : string) (allow : list string) :
  isLicenseAllowed (JString L) (string_array allow) =
  Ok (negb (String.eqb L "") && negb (String.eqb L "UNKNOWN")
      && negb (matches_prohibited L)
      && existsb (fun a => includes (toUpperCase L) (toUpperCase a)) allow).
Proof.
  unfold isLicenseAllowed, matches_prohibited. cbn [truthy strict_eq_string].
  rewrite negb_involutive.
  destruct (String.eqb L ""); [reflexivity|].
  destruct (String.eqb L "UNKNOWN"); [reflexivity|].
  rewrite some_pattern_matches_string. cbn [bind orb negb andb].
  destruct (existsb _ PROHIBITED_PATTERNS); [reflexivity|].
  cbn [call_toUpperCase bind string_array]. apply some_allowed_strings.
Qed.

(** The cases of checker.test.ts. *)
Example isLicenseAllowed_tests :
  let allowedLicenses :=
    string_array ["MIT"; "Apache-2.0"; "BSD-2-Clause"; "BSD-3-Clause"; "ISC"] in
  map (fun license => isLicenseAllowed (JString license) allowedLicenses)
    ["MIT"; "Apache-2.0"; "BSD-2-Clause"; "BSD-3-Clause"; "ISC"; "mit";
     "apache-2.0"] = repeat (Ok true) 7 /\
  map (fun license => isLicenseAllowed (JString license) allowedLicenses)
    ["GPL-3.0"; "GPL-2.0"; "LGPL-3.0"; "AGPL-3.0"; "SSPL-1.0"; "BUSL-1.1";
     "UNKNOWN"; ""; "Copyleft License"] = repeat (Ok false) 9.
Proof. split; reflexivity. Qed.

(** C1. A license that matches a prohibited pattern is rejected whatever the
    allowlist is, also when the allowlist holds that very license. *)
Theorem prohibited_precedence (L : string) (allowedLicenses : json) :
  matches_prohibited L = true ->
  isLicenseAllowed (JString L) allowedLicenses = Ok false.
Proof.
  intros H. unfold isLicenseAllowed, matches_prohibited in *.
  destruct (negb (truthy (JString L)) || strict_eq_string (JString L) "UNKNOWN");
    [reflexivity|].
  rewrite some_pattern_matches_string, H. reflexivity.
Qed.

Lemma prohibited_precedence_witness :
  matches_prohibited "GPL-3.0" = true /\
  isLicenseAllowed (JString "GPL-3.0") (string_array ["GPL-3.0"]) = Ok false.
Proof.
  split; [reflexivity | apply (prohibited_precedence "GPL-3.0"); reflexivity].
Defined.

(** C3. The empty string and ["UNKNOWN"] are rejected whatever the allowlist
    is.  Any other license that matches no prohibited pattern is allowed
    exactly when its upper case form contains the upper case form of some
    entry of the allowlist; so ["apache-2.0"] is allowed by ["Apache-2.0"]. *)
Theorem isLicenseAllowed_substring_semantics :
  (forall allowedLicenses : json,
      isLicenseAllowed (JString "") allowedLicenses = Ok false /\
      isLicenseAllowed (JString "UNKNOWN") allowedLicenses = Ok false) /\
  (forall (L : string) (allow : list string),
      L <> "" -> L <> "UNKNOWN" -> matches_prohibited L = false ->
      exists b : bool,
        isLicenseAllowed (JString L) (string_array allow) = Ok b /\
        (b = true <->
         exists a, In a allow /\ contains (toUpperCase L) (toUpperCase a))) /\
  isLicenseAllowed (JString "apache-2.0") (string_array ["Apache-2.0"]) = Ok true.
Proof.
  split; [|split].
  - intros al. split; reflexivity.
  - intros L allow HE HU HP.
    rewrite isLicenseAllowed_strings, HP.
    apply String.eqb_neq in HE, HU. rewrite HE, HU. cbn [negb andb].
    eexists. split; [reflexivity|].
    rewrite existsb_exists. split.
    + intros (a & Ha & Hi). exists a. split; [exact Ha|].
      now apply includes_contains.
    + intros (a & Ha & Hc). exists a. split; [exact Ha|].
      now apply includes_contains.
  - reflexivity.
Qed.

Lemma isLicenseAllowed_substring_semantics_witness :
  exists b : bool,
    isLicenseAllowed (JString "MIT OR Apache-2.0")
      (string_array ["Apache-2.0"]) = Ok b /\
    (b = true <->
     exists a, In a ["Apache-2.0"] /\
               contains (toUpperCase "MIT OR Apache-2.0") (toUpperCase a)).
Proof.
  apply (proj1 (proj2 isLicenseAllowed_substring_semantics)
           "MIT OR Apache-2.0" ["Apache-2.0"]).
  - discriminate.
  - discriminate.
  - reflexivity.
Defined.

(** C10. An allowlist that holds the empty string allows every license that
    is not empty, not ["UNKNOWN"] and matches no prohibited pattern. *)
Theorem empty_entry_allows_all (L : string) (allow : list string) :
  In "" allow ->
  L <> "" -> L <> "UNKNOWN" -> matches_prohibited L = false ->
  isLicenseAllowed (JString L) (string_array allow) = Ok true.
Proof.
  intros Hin HE HU HP.
  rewrite isLicenseAllowed_strings, HP.
  apply String.eqb_neq in HE, HU. rewrite HE, HU. cbn [negb andb].
  f_equal. apply existsb_exists. exists "". split; [exact Hin|].
  apply includes_empty.
Qed.

Lemma empty_entry_allows_all_witness :
  isLicenseAllowed (JString "WTFPL") (string_array ["MIT"; ""]) = Ok true.
Proof.
  apply (empty_entry_allows_all "WTFPL" ["MIT"; ""]).
  - simpl. right. left. reflexivity.
  - discriminate.
  - discriminate.
  - reflexivity.
Defined.

(** ** loadConfig *)

(** What loadConfig returns, case by case. *)
Lemma loadConfig_eq (w : World) (configPath : option string) :
  loadConfig w configPath =
  Ok match parsed_config w configPath with
     | Some (JObject fields) =>
         or_else (assoc "allowedLicenses" fields)
           (string_array DEFAULT_ALLOWED_LICENSES)
     | _ => string_array DEFAULT_ALLOWED_LICENSES
     end.
Proof.
  unfold loadConfig, parsed_config, config_path.
  set (path := match configPath with Some _ => _ | None => _ end).
  destruct (readFileSync w path) as [text|]; [|reflexivity].
  cbn [lift bind]. destruct (JSON_parse w text) as [[]|]; reflexivity.
Qed.

(** C2, as the code has it.  loadConfig never raises.  It returns the nine
    default entries when the file cannot be read or parsed, when the parsed
    value is [null] or has no [allowedLicenses], and when that field is falsy.
    Otherwise it returns the value of the field as it is, whatever its shape:
    every configured array, with nothing merged in. *)
Theorem loadConfig_fallback (w : World) (configPath : option string) :
  (exists v, loadConfig w configPath = Ok v) /\
  (parsed_config w configPath = None ->
   loadConfig w configPath = Ok (string_array DEFAULT_ALLOWED_LICENSES)) /\
  (forall config,
      parsed_config w configPath = Some config ->
      get config "allowedLicenses" = Throw \/
      get config "allowedLicenses" = Ok None \/
      (exists v, get config "allowedLicenses" = Ok (Some v) /\ truthy v = false) ->
      loadConfig w configPath = Ok (string_array DEFAULT_ALLOWED_LICENSES)) /\
  (forall config v,
      parsed_config w configPath = Some config ->
      get config "allowedLicenses" = Ok (Some v) -> truthy v = true ->
      loadConfig w configPath = Ok v) /\
  (forall config items,
      parsed_config w configPath = Some config ->
      get config "allowedLicenses" = Ok (Some (JArray items)) ->
      loadConfig w configPath = Ok (JArray items)).
Proof.
  rewrite loadConfig_eq. repeat split.
  - eexists. reflexivity.
  - intros ->. reflexivity.
  - intros config -> H. destruct config; try reflexivity.
    cbn [get] in H. destruct H as [H | [H | (v & H & Hv)]].
    + discriminate.
    + injection H as ->. reflexivity.
    + injection H as ->. cbn [or_else]. now rewrite Hv.
  - intros config v -> H Hv. destruct config; try discriminate.
    cbn [get] in H. injection H as ->. cbn [or_else]. now rewrite Hv.
  - intros config items -> H. destruct config; try discriminate.
    cbn [get] in H. injection H as ->. reflexivity.
Qed.

Lemma loadConfig_fallback_witness :
  loadConfig world_mit_only None = Ok (string_array ["MIT"]) /\
  loadConfig world_mit_only (Some "/elsewhere/.licenserc.json") =
  Ok (string_array DEFAULT_ALLOWED_LICENSES).
Proof.
  split.
  - apply (proj2 (proj2 (proj2 (proj2 (loadConfig_fallback world_mit_only None))))
             (JObject [("allowedLicenses", JArray [JString "MIT"])])
             [JString "MIT"]); reflexivity.
  - apply (proj1 (proj2 (loadConfig_fallback world_mit_only
                           (Some "/elsewhere/.licenserc.json")))).
    reflexivity.
Defined.

(** C2, counterexample.  A config file whose [allowedLicenses] is a string
    has the wrong shape, yet loadConfig returns that string and not the
    default list. *)
Lemma loadConfig_wrong_shape_not_default :
  parsed_config world_string_config None =
    Some (JObject [("allowedLicenses", JString "MIT")]) /\
  has_config_shape (JObject [("allowedLicenses", JString "MIT")]) = false /\
  loadConfig world_string_config None = Ok (JString "MIT") /\
  loadConfig world_string_config None <>
    Ok (string_array DEFAULT_ALLOWED_LICENSES).
Proof.
  repeat split; try reflexivity. discriminate.
Qed.

(** ** Workspace discovery *)

Lemma fsnode_induction (P : fsnode -> Prop) :
  P File -> P Unreadable ->
  (forall entries, Forall (fun e => P (snd e)) entries -> P (Dir entries)) ->
  forall node, P node.
Proof.
  intros HF HU HD. fix IH 1. intros [ |entries| ].
  - exact HF.
  - apply HD. induction entries as [|[name child] rest IHrest]; constructor.
    + apply IH.
    + exact IHrest.
  - exact HU.
Qed.

Section Discovery.

Variable join : list string -> string.

Lemma scanEntries_contributions (dir : string) (entries : list (string * fsnode)) :
  Forall (fun e => forall d r,
              findAllPackageJsonDirs join d (snd e) r =
              (Ok tt, r ++ discovered join d (snd e))) entries ->
  forall results,
    scanEntries (findAllPackageJsonDirs join) join dir entries results =
    (Ok tt, results ++ flat_map (contribution join dir) entries).
Proof.
  induction 1 as [|[name entry] rest Hentry _ IH]; intros results.
  - simpl. now rewrite app_nil_r.
  - cbn [scanEntries flat_map]. fold (scanEntries (findAllPackageJsonDirs join) join dir).
    unfold contribution at 1. cbn [fst snd] in *.
    destruct (is_excluded name).
    + now rewrite IH.
    + destruct (isDirectory entry).
      * rewrite Hentry, IH. now rewrite <- app_assoc.
      * destruct (String.eqb name "package.json").
        -- rewrite IH. now rewrite <- app_assoc.
        -- now rewrite IH.
Qed.

(** A call appends what it finds to the array, and completes. *)
Lemma findAllPackageJsonDirs_appends (node : fsnode) :
  forall dir results,
    findAllPackageJsonDirs join dir node results =
    (Ok tt, results ++ discovered join dir node).
Proof.
  induction node as [ | |entries IH] using fsnode_induction; intros dir results.
  - simpl. now rewrite app_nil_r.
  - simpl. now rewrite app_nil_r.
  - unfold discovered. cbn [findAllPackageJsonDirs].
    rewrite !(scanEntries_contributions dir entries IH). reflexivity.
Qed.

Lemma discovered_Dir (dir : string) (entries : list (string * fsnode)) :
  discovered join dir (Dir entries) = flat_map (contribution join dir) entries.
Proof.
  unfold discovered. cbn [findAllPackageJsonDirs].
  rewrite scanEntries_contributions; [reflexivity|].
  apply Forall_forall. intros e _ d r. apply findAllPackageJsonDirs_appends.
Qed.

End Discovery.

Section DiscoveryProperties.

Variable join : list string -> string.

(** Everything a call finds is the path of a directory that lists a
    non-directory [package.json] and is reached through names that are not
    excluded. *)
Lemma discovered_provenance (node : fsnode) :
  forall dir r,
    In r (discovered join dir node) ->
    exists chain entries,
      r = path_of join dir chain /\
      has_excluded chain = false /\
      reaches node chain (Dir entries) /\
      In ("package.json", File) entries.
Proof.
  induction node as [ | |entries IH] using fsnode_induction; intros dir r Hr.
  - contradiction.
  - contradiction.
  - rewrite discovered_Dir in Hr. apply in_flat_map in Hr.
    destruct Hr as ([name entry] & He & Hr).
    unfold contribution in Hr. cbn [fst snd] in Hr.
    destruct (is_excluded name) eqn:Hex; [contradiction|].
    destruct (isDirectory entry) eqn:Hdir.
    + rewrite Forall_forall in IH.
      destruct (IH _ He _ _ Hr) as (chain & es & -> & Hc & Hreach & Hin).
      exists (name :: chain), es. repeat split.
      * unfold has_excluded in *. simpl. now rewrite Hex.
      * now apply reaches_down with (child := entry).
      * exact Hin.
    + destruct (String.eqb name "package.json") eqn:Hn; [|contradiction].
      destruct Hr as [<-|[]]. apply String.eqb_eq in Hn. subst name.
      destruct entry; try discriminate.
      exists [], entries. repeat split; [constructor | exact He].
Qed.

Lemma isDirectory_cut_excluded (node : fsnode) :
  isDirectory (cut_excluded node) = isDirectory node.
Proof. destruct node; reflexivity. Qed.

(** Discovery does not look below an excluded name. *)
Lemma discovered_cut_excluded (node : fsnode) :
  forall dir, discovered join dir (cut_excluded node) = discovered join dir node.
Proof.
  induction node as [ | |entries IH] using fsnode_induction; intros dir;
    try reflexivity.
  cbn [cut_excluded]. rewrite !discovered_Dir.
  induction IH as [|[name entry] rest Hentry _ IHrest]; [reflexivity|].
  cbn [map flat_map fst snd]. rewrite IHrest. f_equal.
  unfold contribution. cbn [fst snd] in *.
  destruct (is_excluded name); [reflexivity|].
  now rewrite isDirectory_cut_excluded, Hentry.
Qed.

End DiscoveryProperties.

Lemma reaches_locations (node : fsnode) (chain : list string) (n : fsnode) :
  reaches node chain n -> In chain (locations node).
Proof.
  induction 1 as [n|entries name child chain n Hin _ IH].
  - destruct n; left; reflexivity.
  - cbn [locations]. right. apply in_flat_map.
    exists (name, child). split; [exact Hin|].
    cbn [fst snd]. now apply in_map.
Qed.

Lemma NoDup_map_injective {A B} (f : A -> B) (l : list A) :
  NoDup (map f l) ->
  forall x y, In x l -> In y l -> f x = f y -> x = y.
Proof.
  induction l as [|a l IH]; intros Hnd x y Hx Hy Hxy; [contradiction|].
  cbn [map] in Hnd. apply NoDup_cons_iff in Hnd. destruct Hnd as [Ha Hnd].
  destruct Hx as [<-|Hx], Hy as [<-|Hy].
  - reflexivity.
  - exfalso. apply Ha. rewrite Hxy. now apply in_map.
  - exfalso. apply Ha. rewrite <- Hxy. now apply in_map.
  - now apply IH.
Qed.

Lemma getWorkspaceDirs_eq (w : World) :
  getWorkspaceDirs w =
  Ok (filter (fun dir => negb (String.eqb dir (cwd w)))
        (discovered (join w) (cwd w) (tree w))).
Proof.
  unfold getWorkspaceDirs. now rewrite findAllPackageJsonDirs_appends.
Qed.

Lemma distinct_NoDup (l : list string) : distinct l = true -> NoDup l.
Proof.
  induction l as [|x l IH]; intros H; constructor.
  - cbn [distinct] in H. apply andb_prop in H. destruct H as [H _].
    intros Hin. apply negb_true_iff in H.
    assert (existsb (String.eqb x) l = true); [|congruence].
    apply existsb_exists. exists x. split; [exact Hin | apply String.eqb_refl].
  - cbn [distinct] in H. apply andb_prop in H. now apply IH.
Qed.

(** *** Paths of a well named tree *)

Lemma posix_join_two (dir name : string) :
  posix_join [dir; name] = (dir ++ "/" ++ name)%string.
Proof. reflexivity. Qed.

Lemma slash_free_app_slash (pre post : string) :
  slash_free (pre ++ String "/" post) = false.
Proof.
  induction pre as [|c pre IH]; simpl in *; [reflexivity|].
  rewrite IH. apply andb_false_r.
Qed.

Lemma split_at_last_slash (a b n m : string) :
  slash_free n = true -> slash_free m = true ->
  (a ++ "/" ++ n)%string = (b ++ "/" ++ m)%string -> a = b /\ n = m.
Proof.
  intros Hn Hm. revert b.
  induction a as [|c a IH]; intros [|d b] H; simpl in H.
  - injection H as ->. now split.
  - injection H as <- ->. now rewrite slash_free_app_slash in Hn.
  - injection H as -> <-. now rewrite slash_free_app_slash in Hm.
  - injection H as -> H. destruct (IH _ H) as [-> ->]. now split.
Qed.

Lemma path_of_snoc (join : list string -> string) (root : string)
    (chain : list string) (name : string) :
  path_of join root (chain ++ [name]) = join [path_of join root chain; name].
Proof. unfold path_of. now rewrite fold_left_app. Qed.

Lemma append_length (a b : string) :
  String.length (a ++ b) = String.length a + String.length b.
Proof. induction a as [|c a IH]; simpl; [reflexivity | now rewrite IH]. Qed.

Lemma path_of_posix_length (root : string) (chain : list string) :
  chain <> [] ->
  String.length root < String.length (path_of posix_join root chain).
Proof.
  induction chain as [|name chain IH] using rev_ind; intros H; [congruence|].
  rewrite path_of_snoc, posix_join_two, !append_length. simpl.
  destruct chain as [|n c]; [simpl; lia|].
  assert (n :: c <> []) as Hne by discriminate. specialize (IH Hne). lia.
Qed.

Lemma path_of_posix_injective (root : string) (c1 : list string) :
  forall c2,
    forallb slash_free c1 = true -> forallb slash_free c2 = true ->
    path_of posix_join root c1 = path_of posix_join root c2 -> c1 = c2.
Proof.
  induction c1 as [|n c1 IH] using rev_ind;
    intros c2; destruct c2 as [|m c2 _] using rev_ind; intros H1 H2 H.
  - reflexivity.
  - exfalso.
    assert (String.length root <
            String.length (path_of posix_join root (c2 ++ [m])))
      by (apply path_of_posix_length; now destruct c2).
    rewrite <- H in *. simpl in *. lia.
  - exfalso.
    assert (String.length root <
            String.length (path_of posix_join root (c1 ++ [n])))
      by (apply path_of_posix_length; now destruct c1).
    rewrite H in *. simpl in *. lia.
  - rewrite !path_of_snoc, !posix_join_two in H.
    rewrite forallb_app in H1, H2. cbn [forallb] in H1, H2.
    apply andb_prop in H1, H2. destruct H1 as [H1 Hn], H2 as [H2 Hm].
    rewrite andb_true_r in Hn, Hm.
    destruct (split_at_last_slash _ _ _ _ Hn Hm H) as [Hp ->].
    now rewrite (IH c2 H1 H2 Hp).
Qed.

Lemma NoDup_map_on {A B} (f : A -> B) (l : list A) :
  NoDup l ->
  (forall x y, In x l -> In y l -> f x = f y -> x = y) ->
  NoDup (map f l).
Proof.
  induction 1 as [|a l Ha Hnd IH]; intros Hinj; cbn [map]; constructor.
  - intros Hin. apply in_map_iff in Hin. destruct Hin as (x & Hfx & Hx).
    apply Ha. rewrite (Hinj a x); [exact Hx | now left | now right | now symmetry].
  - apply IH. intros x y Hx Hy. apply Hinj; now right.
Qed.

Lemma distinct_cons (x : string) (l : list string) :
  distinct (x :: l) = true -> ~ In x l /\ distinct l = true.
Proof.
  intros H. pose proof (distinct_NoDup _ H) as Hnd.
  apply NoDup_cons_iff in Hnd. split; [tauto|].
  cbn [distinct] in H. now apply andb_prop in H.
Qed.

Lemma locations_NoDup (node : fsnode) :
  well_named node = true -> NoDup (locations node).
Proof.
  induction node as [ | |entries IH] using fsnode_induction; intros Hw.
  - repeat constructor. intros [].
  - repeat constructor. intros [].
  - cbn [locations well_named] in *. apply andb_prop in Hw.
    destruct Hw as [Hd Hall]. constructor.
    + intros Hin. apply in_flat_map in Hin. destruct Hin as (e & _ & Hin).
      apply in_map_iff in Hin. destruct Hin as (c & Hc & _). discriminate.
    + induction IH as [|[name child] rest Hchild _ IHrest]; [constructor|].
      cbn [map fst snd forallb flat_map] in *.
      apply distinct_cons in Hd. destruct Hd as [Hname Hd].
      apply andb_prop in Hall. destruct Hall as [Hhere Hall].
      apply andb_prop in Hhere. destruct Hhere as [_ Hwchild].
      apply NoDup_app.
      * apply NoDup_map_on; [now apply Hchild|].
        intros x y _ _ E. now injection E.
      * now apply IHrest.
      * intros chain Hin Hin'.
        apply in_map_iff in Hin. destruct Hin as (c & <- & _).
        apply in_flat_map in Hin'. destruct Hin' as ([n' ch'] & He & Hin').
        apply in_map_iff in Hin'. destruct Hin' as (c' & E & _).
        cbn [fst] in E. injection E as -> _.
        apply Hname. apply in_map_iff. now exists (name, ch').
Qed.

Lemma locations_slash_free (node : fsnode) :
  well_named node = true ->
  forall chain, In chain (locations node) -> forallb slash_free chain = true.
Proof.
  induction node as [ | |entries IH] using fsnode_induction;
    intros Hw chain Hin.
  - destruct Hin as [<-|[]]. reflexivity.
  - destruct Hin as [<-|[]]. reflexivity.
  - cbn [locations well_named] in *. apply andb_prop in Hw.
    destruct Hw as [_ Hall]. destruct Hin as [<-|Hin]; [reflexivity|].
    apply in_flat_map in Hin. destruct Hin as ([name child] & He & Hin).
    apply in_map_iff in Hin. destruct Hin as (c & <- & Hc).
    rewrite forallb_forall in Hall. specialize (Hall _ He).
    cbn [fst snd] in *. apply andb_prop in Hall. destruct Hall as [Hn Hchild].
    rewrite Forall_forall in IH. specialize (IH _ He Hchild c Hc).
    cbn [forallb]. now rewrite Hn, IH.
Qed.

(** With [path.join] as on POSIX, distinct places of a well named tree have
    distinct paths. *)
Lemma well_named_paths_distinct (root : string) (node : fsnode) :
  well_named node = true ->
  NoDup (map (path_of posix_join root) (locations node)).
Proof.
  intros Hw. apply NoDup_map_on; [now apply locations_NoDup|].
  intros x y Hx Hy. apply path_of_posix_injective;
    now apply (locations_slash_free node).
Qed.

(** *** Exclusion and failures *)

(** C5. In a tree where distinct places have distinct paths (every well
    named tree is one, see [well_named_paths_distinct]), the path of a place
    that lies in or below a directory with an excluded name is never among
    the discovered workspaces; and what lies below an excluded name has no
    effect on discovery at all. *)
Theorem excluded_never_discovered (w : World) (chain : list string) :
  NoDup (map (path_of (join w) (cwd w)) (locations (tree w))) ->
  In chain (locations (tree w)) ->
  has_excluded chain = true ->
  ~ In (path_of (join w) (cwd w) chain)
       (discovered (join w) (cwd w) (tree w)) /\
  (forall dirs, getWorkspaceDirs w = Ok dirs ->
                ~ In (path_of (join w) (cwd w) chain) dirs) /\
  (forall dir results,
      findAllPackageJsonDirs (join w) dir (cut_excluded (tree w)) results =
      findAllPackageJsonDirs (join w) dir (tree w) results).
Proof.
  intros Hnd Hchain Hex.
  assert (Hnot : ~ In (path_of (join w) (cwd w) chain)
                      (discovered (join w) (cwd w) (tree w))).
  { intros Hin. apply discovered_provenance in Hin.
    destruct Hin as (chain' & es & Heq & Hc & Hreach & _).
    apply reaches_locations in Hreach.
    assert (chain = chain') as ->
        by (eapply NoDup_map_injective; eauto).
    congruence. }
  repeat split.
  - exact Hnot.
  - intros dirs Hdirs Hin. rewrite getWorkspaceDirs_eq in Hdirs.
    injection Hdirs as <-. apply filter_In in Hin. now apply Hnot.
  - intros dir results.
    now rewrite !findAllPackageJsonDirs_appends, discovered_cut_excluded.
Qed.

Lemma excluded_never_discovered_witness :
  In ["apps"; "app1"; "node_modules"; "mit-pkg"] (locations sample_tree) /\
  ~ In "/proj/apps/app1/node_modules/mit-pkg"
       (discovered posix_join "/proj" sample_tree).
Proof.
  split.
  - vm_compute. tauto.
  - refine (proj1 (excluded_never_discovered world_sample_tree
                     ["apps"; "app1"; "node_modules"; "mit-pkg"] _ _ _)).
    + apply distinct_NoDup. vm_compute. reflexivity.
    + vm_compute. tauto.
    + reflexivity.
Defined.

(** C8. A call of findAllPackageJsonDirs completes without an exception
    whatever the tree is, and keeps what the array held.  A directory that
    cannot be read adds nothing; each entry of a directory adds what it adds
    independently of the other entries, so an unreadable entry takes nothing
    away from the entries before and after it.  getWorkspaceDirs returns. *)
Theorem discovery_never_raises (join : list string -> string) (dir : string) :
  (forall node results,
      exists found,
        findAllPackageJsonDirs join dir node results =
        (Ok tt, results ++ found)) /\
  (forall results,
      findAllPackageJsonDirs join dir Unreadable results = (Ok tt, results) /\
      findAllPackageJsonDirs join dir File results = (Ok tt, results)) /\
  (forall entries results,
      findAllPackageJsonDirs join dir (Dir entries) results =
      (Ok tt, results ++ flat_map (contribution join dir) entries)) /\
  (forall name, contribution join dir (name, Unreadable) = []) /\
  (forall before name after results,
      findAllPackageJsonDirs join dir
        (Dir (before ++ (name, Unreadable) :: after)) results =
      findAllPackageJsonDirs join dir (Dir (before ++ after)) results) /\
  (forall w : World, exists dirs, getWorkspaceDirs w = Ok dirs).
Proof.
  assert (Hun : forall name, contribution join dir (name, Unreadable) = []).
  { intros name. unfold contribution. cbn [fst snd isDirectory].
    destruct (is_excluded name); reflexivity. }
  repeat split.
  - intros node results. eexists. apply findAllPackageJsonDirs_appends.
  - intros entries results.
    now rewrite findAllPackageJsonDirs_appends, discovered_Dir.
  - exact Hun.
  - intros before name after results.
    rewrite !findAllPackageJsonDirs_appends, !discovered_Dir, !flat_map_app.
    cbn [flat_map]. now rewrite Hun.
  - intros w. eexists. apply getWorkspaceDirs_eq.
Qed.

Example discovery_sample :
  findAllPackageJsonDirs posix_join "/proj" sample_tree [] =
    (Ok tt, ["/proj"; "/proj/apps/app1"; "/proj/apps/app2"]) /\
  getWorkspaceDirs world_sample_tree =
    Ok ["/proj/apps/app1"; "/proj/apps/app2"].
Proof. split; reflexivity. Qed.

(** ** Objects as lists of properties *)

Section Objects.

Context {A : Type}.

Lemma obj_set_keys (key : string) (value : A) (obj : list (string * A)) :
  map fst (obj_set key value obj) =
  if existsb (String.eqb key) (map fst obj) then map fst obj
  else map fst obj ++ [key].
Proof.
  induction obj as [|[k a] obj IH]; [reflexivity|].
  cbn [obj_set map fst existsb]. rewrite (String.eqb_sym key k).
  destruct (String.eqb k key); [reflexivity|].
  cbn [map fst orb]. rewrite IH.
  now destruct (existsb (String.eqb key) (map fst obj)).
Qed.

Lemma obj_set_NoDup (key : string) (value : A) (obj : list (string * A)) :
  NoDup (map fst obj) -> NoDup (map fst (obj_set key value obj)).
Proof.
  intros H. rewrite obj_set_keys.
  destruct (existsb (String.eqb key) (map fst obj)) eqn:E; [exact H|].
  apply NoDup_app; [exact H | repeat constructor; intros [] | ].
  intros x Hx [Hk|[]]. subst x.
  assert (existsb (String.eqb key) (map fst obj) = true); [|congruence].
  apply existsb_exists. exists key. split; [exact Hx | apply String.eqb_refl].
Qed.

Lemma obj_set_In (key : string) (value : A) (obj : list (string * A)) e :
  In e (obj_set key value obj) -> e = (key, value) \/ In e obj.
Proof.
  induction obj as [|[k a] obj IH]; cbn [obj_set].
  - intros [<-|[]]. now left.
  - destruct (String.eqb k key) eqn:E.
    + apply String.eqb_eq in E. subst k.
      intros [<-|H]; [now left | right; now right].
    + intros [<-|H]; [right; now left|].
      destruct (IH H); [now left | right; now right].
Qed.

Lemma obj_set_Forall (P : string * A -> Prop) key value obj :
  P (key, value) -> Forall P obj -> Forall P (obj_set key value obj).
Proof.
  intros Hv H. apply Forall_forall. intros e He.
  apply obj_set_In in He. destruct He as [->|He]; [exact Hv|].
  rewrite Forall_forall in H. now apply H.
Qed.

Lemma assoc_obj_set_same (key : string) (value : A) obj :
  assoc key (obj_set key value obj) = Some value.
Proof.
  induction obj as [|[k a] obj IH]; cbn [obj_set assoc].
  - now rewrite String.eqb_refl.
  - destruct (String.eqb k key) eqn:E; cbn [assoc]; now rewrite E.
Qed.

Lemma assoc_obj_set_other (key key' : string) (value : A) obj :
  key' <> key -> assoc key (obj_set key' value obj) = assoc key obj.
Proof.
  intros Hne. induction obj as [|[k a] obj IH]; cbn [obj_set assoc].
  - apply String.eqb_neq in Hne. now rewrite Hne.
  - destruct (String.eqb k key') eqn:E; cbn [assoc].
    + apply String.eqb_eq in E. subst k.
      apply String.eqb_neq in Hne. now rewrite Hne.
    + now rewrite IH.
Qed.

End Objects.

(** ** License resolution *)

Lemma or_else_UNKNOWN_truthy (v : jsval) :
  truthy (or_else v (JString "UNKNOWN")) = true.
Proof.
  destruct v as [x|]; [|reflexivity].
  cbn [or_else]. destruct (truthy x) eqn:E; [exact E | reflexivity].
Qed.

Lemma or_else_truthy (x d : json) : truthy x = true -> or_else (Some x) d = x.
Proof. intros H. cbn [or_else]. now rewrite H. Qed.

(** What a successful resolution of one dependency has gone through. *)
Lemma resolveDependency_Ok (w : World) (dir name key : string) info :
  resolveDependency w dir name = Ok (key, info) ->
  exists dep l v versionText,
    installed w dir name = Ok dep /\
    get dep "license" = Ok l /\ get dep "version" = Ok v /\
    ToString (or_else v (JString "UNKNOWN")) = Ok versionText /\
    key = (name ++ "@" ++ versionText)%string /\
    info = PackageInfo.mk (or_else l (JString "UNKNOWN"))
             (or_else v (JString "UNKNOWN")).
Proof.
  unfold resolveDependency, installed.
  destruct (realpathSync w _) as [real|]; [|discriminate]. cbn [lift bind].
  destruct (readFileSync w real) as [text|]; [|discriminate]. cbn [lift bind].
  destruct (JSON_parse w text) as [dep|]; [|discriminate]. cbn [lift bind].
  destruct (get dep "license") as [l|] eqn:Hl; [|discriminate]. cbn [bind].
  destruct (get dep "version") as [v|] eqn:Hv; [|discriminate]. cbn [bind].
  destruct (ToString _) as [versionText|] eqn:Ht; [|discriminate]. cbn [bind].
  intros H. injection H as <- <-. exists dep, l, v, versionText.
  repeat split; assumption.
Qed.


Lemma getLicensesFromPackageJson_eq (w : World) (dir : string) :
  getLicensesFromPackageJson w dir =
  Ok match declared w dir with
     | Ok entries => fold_left (resolveInto w dir) entries []
     | Throw => []
     end.
Proof.
  unfold getLicensesFromPackageJson, declared.
  destruct (readFileSync w _) as [text|]; [|reflexivity]. cbn [lift bind].
  destruct (JSON_parse w text) as [pj|]; [|reflexivity]. cbn [lift bind].
  destruct (get pj "dependencies") as [d|]; [|reflexivity]. cbn [bind].
  destruct (Object_entries _); reflexivity.
Qed.

Section ResolvedEntries.

Variable w : World.
Variable P : string * PackageInfo.t -> Prop.
Hypothesis resolved_P :
  forall dir name key info,
    resolveDependency w dir name = Ok (key, info) -> P (key, info).

Lemma fold_resolveInto_Forall (dir : string) entries :
  forall licenses,
    Forall P licenses ->
    Forall P (fold_left (resolveInto w dir) entries licenses).
Proof.
  induction entries as [|e es IH]; intros licenses H; [exact H|].
  cbn [fold_left]. apply IH. unfold resolveInto.
  destruct (resolveDependency w dir (fst e)) as [[key info]|] eqn:E;
    [|exact H].
  apply obj_set_Forall; [|exact H]. now apply resolved_P in E.
Qed.

Lemma getLicensesFromPackageJson_Forall (dir : string) licenses :
  getLicensesFromPackageJson w dir = Ok licenses -> Forall P licenses.
Proof.
  rewrite getLicensesFromPackageJson_eq. intros H. injection H as <-.
  destruct (declared w dir); [|constructor].
  apply fold_resolveInto_Forall. constructor.
Qed.

Lemma Object_assign_Forall (target source : Licenses) :
  Forall P target -> Forall P source -> Forall P (Object_assign target source).
Proof.
  unfold Object_assign. intros Ht Hs. revert target Ht.
  induction Hs as [|[k info] source Hk _ IH]; intros target Ht; [exact Ht|].
  cbn [fold_left fst snd]. apply IH. now apply obj_set_Forall.
Qed.

Lemma mergeWorkspaces_Forall (workspaceDirs : list string) :
  forall allLicenses licenses,
    Forall P allLicenses ->
    mergeWorkspaces w workspaceDirs allLicenses = Ok licenses ->
    Forall P licenses.
Proof.
  induction workspaceDirs as [|dir rest IH]; intros allLicenses licenses H.
  - intros E. now injection E as <-.
  - cbn [mergeWorkspaces].
    destruct (getLicensesFromPackageJson w dir) as [l|] eqn:E; [|discriminate].
    cbn [bind]. apply IH. apply Object_assign_Forall; [exact H|].
    now apply getLicensesFromPackageJson_Forall in E.
Qed.

Lemma getLicenses_Forall (licenses : Licenses) :
  getLicenses w = Ok licenses -> Forall P licenses.
Proof.
  unfold getLicenses. rewrite getWorkspaceDirs_eq. cbn [bind].
  apply mergeWorkspaces_Forall. constructor.
Qed.

End ResolvedEntries.

Lemma fold_obj_set_NoDup {A} (source target : list (string * A)) :
  NoDup (map fst target) ->
  NoDup (map fst (fold_left (fun t kv => obj_set (fst kv) (snd kv) t)
                    source target)).
Proof.
  revert target. induction source as [|[k a] source IH]; intros target H;
    [exact H|].
  cbn [fold_left]. apply IH. now apply obj_set_NoDup.
Qed.

Lemma mergeWorkspaces_returns (w : World) (workspaceDirs : list string) :
  forall allLicenses,
    NoDup (map fst allLicenses) ->
    exists licenses,
      mergeWorkspaces w workspaceDirs allLicenses = Ok licenses /\
      NoDup (map fst licenses).
Proof.
  induction workspaceDirs as [|dir rest IH]; intros allLicenses H.
  - now exists allLicenses.
  - cbn [mergeWorkspaces]. rewrite getLicensesFromPackageJson_eq. cbn [bind].
    apply IH. now apply fold_obj_set_NoDup.
Qed.

(** getLicenses returns, and what it returns is well formed. *)
Lemma getLicenses_well_formed (w : World) :
  exists licenses, getLicenses w = Ok licenses /\ well_formed licenses.
Proof.
  destruct (mergeWorkspaces_returns w
              (filter (fun dir => negb (String.eqb dir (cwd w)))
                 (discovered (join w) (cwd w) (tree w))) [])
    as (licenses & H & Hnd); [constructor|].
  assert (Hl : getLicenses w = Ok licenses).
  { unfold getLicenses. rewrite getWorkspaceDirs_eq. exact H. }
  exists licenses. split; [exact Hl|]. split; [exact Hnd|].
  apply (getLicenses_Forall w
           (fun e => truthy (PackageInfo.license (snd e)) = true));
    [|exact Hl].
  intros dir name key info E. cbn [snd].
  apply resolveDependency_Ok in E.
  destruct E as (dep & l & v & vt & _ & _ & _ & _ & _ & ->).
  apply or_else_UNKNOWN_truthy.
Qed.

(** *** Development dependencies *)

Lemma fold_left_ext_in {A B} (f g : A -> B -> A) (l : list B) :
  (forall a b, In b l -> f a b = g a b) ->
  forall a, fold_left f l a = fold_left g l a.
Proof.
  induction l as [|b l IH]; intros H a; [reflexivity|].
  cbn [fold_left]. rewrite H by now left.
  apply IH. intros a' b' Hb'. apply H. now right.
Qed.

Section DevDependencies.

Variables w w' : World.
Hypothesis Hsame : same_but_devDependencies_world w w'.

Lemma parse_same (text : string) :
  (JSON_parse w text = None /\ JSON_parse w' text = None) \/
  (exists a b, JSON_parse w text = Some a /\ JSON_parse w' text = Some b /\
               same_but_devDependencies a b).
Proof.
  destruct Hsame as (_ & _ & _ & _ & _ & Hparse). specialize (Hparse text).
  destruct (JSON_parse w text) as [a|], (JSON_parse w' text) as [b|];
    try contradiction.
  - right. now exists a, b.
  - now left.
Qed.

Lemma declared_same (dir : string) : declared w' dir = declared w dir.
Proof.
  pose proof Hsame as (_ & Hj & _ & Hr & _ & _).
  unfold declared. rewrite Hj, Hr.
  destruct (readFileSync w _) as [text|]; [|reflexivity]. cbn [lift bind].
  destruct (parse_same text) as [[-> ->]|(a & b & -> & -> & Hab)];
    [reflexivity|].
  cbn [lift bind]. now rewrite (Hab "dependencies") by discriminate.
Qed.

Lemma resolveDependency_same (dir name : string) :
  resolveDependency w' dir name = resolveDependency w dir name.
Proof.
  pose proof Hsame as (_ & Hj & _ & Hr & Hp & _).
  unfold resolveDependency. rewrite Hj, Hr, Hp.
  destruct (realpathSync w _) as [real|]; [|reflexivity]. cbn [lift bind].
  destruct (readFileSync w real) as [text|]; [|reflexivity]. cbn [lift bind].
  destruct (parse_same text) as [[-> ->]|(a & b & -> & -> & Hab)];
    [reflexivity|].
  cbn [lift bind].
  now rewrite (Hab "license"), (Hab "version") by discriminate.
Qed.

Lemma getLicensesFromPackageJson_same (dir : string) :
  getLicensesFromPackageJson w' dir = getLicensesFromPackageJson w dir.
Proof.
  rewrite !getLicensesFromPackageJson_eq, declared_same.
  destruct (declared w dir) as [entries|]; [|reflexivity].
  f_equal. apply fold_left_ext_in. intros licenses e _.
  unfold resolveInto. now rewrite resolveDependency_same.
Qed.

End DevDependencies.

Lemma fold_resolveInto_provenance (w : World) (dir : string) entries :
  forall licenses key info,
    In (key, info) (fold_left (resolveInto w dir) entries licenses) ->
    In (key, info) licenses \/
    exists name range,
      In (name, range) entries /\
      resolveDependency w dir name = Ok (key, info).
Proof.
  induction entries as [|[name range] es IH]; intros licenses key info H.
  - now left.
  - cbn [fold_left] in H. apply IH in H.
    destruct H as [H|(n & r & Hin & Hres)].
    + unfold resolveInto in H. cbn [fst] in H.
      destruct (resolveDependency w dir name) as [[k i]|] eqn:E.
      * apply obj_set_In in H. destruct H as [H|H]; [|now left].
        injection H as -> ->. right. exists name, range. split; [now left | exact E].
      * now left.
    + right. exists n, r. split; [now right | exact Hres].
Qed.

(** C7. The mapping resolved for a workspace is the same whatever the
    [devDependencies] of its descriptor hold, or of any other parsed file;
    and every entry of the mapping is what resolves from a name among the
    entries of the [dependencies] of the descriptor. *)
Theorem devDependencies_are_not_read (w w' : World) (dir : string) :
  same_but_devDependencies_world w w' ->
  getLicensesFromPackageJson w' dir = getLicensesFromPackageJson w dir /\
  (forall licenses key info,
      getLicensesFromPackageJson w dir = Ok licenses ->
      In (key, info) licenses ->
      exists text packageJson d name range entries,
        readFileSync w (join w [dir; "package.json"]) = Some text /\
        JSON_parse w text = Some packageJson /\
        get packageJson "dependencies" = Ok d /\
        Object_entries (or_else d (JObject [])) = Ok entries /\
        In (name, range) entries /\
        resolveDependency w dir name = Ok (key, info)).
Proof.
  intros Hsame. split.
  - now apply getLicensesFromPackageJson_same.
  - intros licenses key info H Hin.
    rewrite getLicensesFromPackageJson_eq in H. injection H as <-.
    unfold declared in Hin.
    destruct (readFileSync w _) as [text|] eqn:Er; [|contradiction].
    cbn [lift bind] in Hin.
    destruct (JSON_parse w text) as [packageJson|] eqn:Ep; [|contradiction].
    cbn [lift bind] in Hin.
    destruct (get packageJson "dependencies") as [d|] eqn:Ed; [|contradiction].
    cbn [bind] in Hin.
    destruct (Object_entries _) as [entries|] eqn:E; [|contradiction].
    apply fold_resolveInto_provenance in Hin.
    destruct Hin as [[]|(name & range & Hin & Hres)].
    now exists text, packageJson, d, name, range, entries.
Qed.

Lemma same_but_devDependencies_refl (a : json) : same_but_devDependencies a a.
Proof. intros k _. reflexivity. Qed.

Lemma monorepo_same_but_devDependencies :
  same_but_devDependencies_world
    (world_monorepo_with app1_descriptor_no_dev) world_monorepo.
Proof.
  repeat split. intros text.
  unfold world_monorepo, world_monorepo_with, JSON_parse, table, monorepo_parse.
  cbn [assoc].
  repeat match goal with
         | |- context [String.eqb ?a text] => destruct (String.eqb a text)
         end;
    try apply same_but_devDependencies_refl; try exact I.
  intros k Hk. cbn [get assoc app1_descriptor app1_descriptor_no_dev].
  destruct (String.eqb "name" k); [reflexivity|].
  destruct (String.eqb "dependencies" k); [reflexivity|].
  destruct (String.eqb "devDependencies" k) eqn:E; [|reflexivity].
  apply String.eqb_eq in E. congruence.
Qed.

Lemma devDependencies_are_not_read_witness :
  getLicensesFromPackageJson world_monorepo "/proj/apps/app1" =
  getLicensesFromPackageJson (world_monorepo_with app1_descriptor_no_dev)
    "/proj/apps/app1" /\
  getLicensesFromPackageJson world_monorepo "/proj/apps/app1" =
  Ok monorepo_licenses /\
  resolveDependency world_monorepo "/proj/apps/app1" "dev-pkg" =
  Ok ("dev-pkg@3.0.0", PackageInfo.mk (JString "MIT") (JString "3.0.0")).
Proof.
  split; [|split; reflexivity].
  apply (proj1 (devDependencies_are_not_read
                  (world_monorepo_with app1_descriptor_no_dev) world_monorepo
                  "/proj/apps/app1" monorepo_same_but_devDependencies)).
Defined.

(** ** checkLicenses *)

(** The loop keeps [total], counts every entry once, and appends one
    violation for every entry it counts as one. *)
Lemma classify_counts (allowedLicenses : json) (entries : Licenses) :
  forall summary violations summary' violations',
    classify allowedLicenses entries summary violations =
      Ok (summary', violations') ->
    Summary.total summary' = Summary.total summary /\
    Summary.allowed summary' + Summary.violations summary' =
      Summary.allowed summary + Summary.violations summary + length entries /\
    length violations' + Summary.violations summary =
      length violations + Summary.violations summary'.
Proof.
  induction entries as [|[packageName info] rest IH];
    intros summary violations summary' violations' H.
  - injection H as <- <-. cbn [length]. lia.
  - cbn [classify] in H.
    destruct (isLicenseAllowed _ _) as [[|]|]; cbn [bind] in H;
      [| |discriminate]; apply IH in H; cbn [Summary.total Summary.allowed
        Summary.violations length] in *.
    + lia.
    + rewrite length_app in H. cbn [length] in H. lia.
Qed.

(** The violations the loop appends are the rejected entries, in order. *)
Lemma classify_violations (allowedLicenses : json) (entries : Licenses) :
  Forall (fun e => truthy (PackageInfo.license (snd e)) = true) entries ->
  forall summary violations summary' violations',
    classify allowedLicenses entries summary violations =
      Ok (summary', violations') ->
    violations' =
      violations ++ map violation_of (filter (rejected allowedLicenses) entries).
Proof.
  induction 1 as [|[packageName info] rest Hinfo _ IH];
    intros summary violations summary' violations' H.
  - injection H as _ <-. cbn [filter map]. now rewrite app_nil_r.
  - cbn [classify] in H. cbn [filter]. unfold rejected at 1. cbn [snd] in *.
    destruct (isLicenseAllowed _ _) as [[|]|]; cbn [bind] in H;
      [| |discriminate]; apply IH in H; rewrite H.
    + reflexivity.
    + rewrite (or_else_truthy _ _ Hinfo), <- app_assoc. reflexivity.
Qed.

Lemma checkLicenses_Ok (w : World) (options : CheckOptions.t) report :
  checkLicenses w options = Ok report ->
  exists licenses,
    loadConfig w None = Ok (LicenseReport.allowedLicenses report) /\
    getLicenses w = Ok licenses /\
    LicenseReport.licenses report = licenses /\
    classify (LicenseReport.allowedLicenses report) licenses
      (Summary.mk (length licenses) 0 0) [] =
    Ok (LicenseReport.summary report, LicenseReport.violations report).
Proof.
  unfold checkLicenses.
  destruct (loadConfig w None) as [al|]; [|discriminate]. cbn [bind].
  rewrite getWorkspaceDirs_eq. cbn [bind].
  match goal with |- context [if ?c then _ else _] => destruct c end;
    cbn [bind];
    (destruct (getLicenses w) as [licenses|]; [|discriminate]); cbn [bind];
    (destruct (classify _ _ _ _) as [[s v]|] eqn:E; [|discriminate]);
    cbn [bind]; intros H; injection H as <-; now exists licenses.
Qed.

Lemma classify_returns (allow : list string) (entries : Licenses) :
  Forall (fun e => is_string (PackageInfo.license (snd e)) = true) entries ->
  forall summary violations,
    exists r, classify (string_array allow) entries summary violations = Ok r.
Proof.
  induction 1 as [|[packageName info] rest Hs _ IH]; intros summary violations.
  - eexists. reflexivity.
  - cbn [classify]. cbn [snd] in Hs.
    destruct (PackageInfo.license info) as [| | |L| |]; try discriminate.
    rewrite isLicenseAllowed_strings. cbn [bind].
    match goal with |- context [if ?c then _ else _] => destruct c end;
      apply IH.
Qed.

(** With an allowlist that is a list of strings and licenses that are
    strings where there are any, checkLicenses returns a report. *)
Lemma checkLicenses_returns (w : World) (allow : list string)
    (options : CheckOptions.t) :
  loadConfig w None = Ok (string_array allow) ->
  licenses_are_strings w ->
  exists report, checkLicenses w options = Ok report.
Proof.
  intros Hc Hs. unfold checkLicenses. rewrite Hc, getWorkspaceDirs_eq.
  cbn [bind].
  destruct (getLicenses_well_formed w) as (licenses & Hl & _).
  assert (Hstr : Forall (fun e => is_string (PackageInfo.license (snd e)) = true)
                   licenses).
  { apply (getLicenses_Forall w _) with (licenses := licenses); [|exact Hl].
    intros dir name key info E. cbn [snd].
    apply resolveDependency_Ok in E.
    destruct E as (dep & l & v & vt & Hi & Hlic & _ & _ & _ & ->).
    cbn [PackageInfo.license]. destruct l as [x|]; [|reflexivity].
    cbn [or_else]. destruct (truthy x); [|reflexivity].
    unfold installed in Hi.
    destruct (realpathSync w _) as [real|]; [|discriminate].
    cbn [lift bind] in Hi.
    destruct (readFileSync w real) as [text|]; [|discriminate].
    cbn [lift bind] in Hi.
    destruct (JSON_parse w text) as [d|] eqn:Ep; [|discriminate].
    injection Hi as ->. exact (Hs text dep x Ep Hlic). }
  destruct (classify_returns allow licenses Hstr
              (Summary.mk (length licenses) 0 0) []) as (r & Hr).
  match goal with |- context [if ?c then _ else _] => destruct c end;
    cbn [bind]; rewrite Hl; cbn [bind]; rewrite Hr; cbn [bind];
    eexists; reflexivity.
Qed.

Example checkLicenses_monorepo :
  checkLicenses world_monorepo CheckOptions.default = Ok monorepo_report.
Proof. reflexivity. Qed.

(** C4. In every report of checkLicenses, [total] is the sum of [allowed]
    and [violations] and is the number of keys of the mapping, no key being
    counted twice; the list of violations is as long as the count says. *)
Theorem summary_invariant (w : World) (options : CheckOptions.t)
    (report : LicenseReport.t) :
  checkLicenses w options = Ok report ->
  let summary := LicenseReport.summary report in
  let keys := map fst (LicenseReport.licenses report) in
  Summary.total summary = Summary.allowed summary + Summary.violations summary /\
  Summary.total summary = length keys /\
  NoDup keys /\
  length (LicenseReport.violations report) = Summary.violations summary.
Proof.
  intros H. apply checkLicenses_Ok in H.
  destruct H as (licenses & _ & Hl & -> & Hc).
  apply classify_counts in Hc.
  cbn [Summary.total Summary.allowed Summary.violations length] in Hc.
  destruct (getLicenses_well_formed w) as (l' & Hl' & Hnd & _).
  rewrite Hl in Hl'. injection Hl' as <-.
  cbn zeta. rewrite length_map. repeat split; try lia. exact Hnd.
Qed.

Lemma summary_invariant_witness :
  checkLicenses world_monorepo CheckOptions.default = Ok monorepo_report /\
  3 = 1 + 2 /\
  3 = length (map fst monorepo_licenses) /\
  NoDup (map fst monorepo_licenses) /\
  length (LicenseReport.violations monorepo_report) = 2.
Proof.
  split; [reflexivity|].
  apply (summary_invariant world_monorepo CheckOptions.default monorepo_report).
  reflexivity.
Defined.

(** C9. In every report of checkLicenses, the violations are the entries of
    the mapping that isLicenseAllowed rejects, in the order of the mapping,
    each with the key as [package] and the license and version of the
    entry. *)
Theorem violations_are_rejected_entries (w : World) (options : CheckOptions.t)
    (report : LicenseReport.t) :
  checkLicenses w options = Ok report ->
  LicenseReport.violations report =
  map (fun e => Violation.mk (fst e) (PackageInfo.license (snd e))
                  (PackageInfo.version (snd e)))
    (filter
       (fun e =>
          match isLicenseAllowed (PackageInfo.license (snd e))
                  (LicenseReport.allowedLicenses report) with
          | Ok false => true
          | _ => false
          end)
       (LicenseReport.licenses report)).
Proof.
  intros H. apply checkLicenses_Ok in H.
  destruct H as (licenses & _ & Hl & -> & Hc).
  destruct (getLicenses_well_formed w) as (l' & Hl' & _ & Ht).
  rewrite Hl in Hl'. injection Hl' as <-.
  apply classify_violations in Hc; [|exact Ht]. exact Hc.
Qed.

Lemma violations_are_rejected_entries_witness :
  checkLicenses world_monorepo CheckOptions.default = Ok monorepo_report /\
  LicenseReport.violations monorepo_report =
  map violation_of
    (filter (rejected (string_array DEFAULT_ALLOWED_LICENSES)) monorepo_licenses).
Proof.
  split; [reflexivity|].
  apply (violations_are_rejected_entries world_monorepo CheckOptions.default
           monorepo_report).
  reflexivity.
Defined.

(** *** Entries of unknown license *)



(** ** More on workspace discovery *)

Lemma reaches_directory (node : fsnode) (chain : list string) entries :
  reaches node chain (Dir entries) -> isDirectory node = true.
Proof. intros H. inversion H; reflexivity. Qed.

Lemma discovered_complete (join : list string -> string) (node : fsnode)
    (chain : list string) (target : fsnode) :
  reaches node chain target ->
  forall entries dir,
    target = Dir entries ->
    has_excluded chain = false ->
    In ("package.json", File) entries ->
    In (path_of join dir chain) (discovered join dir node).
Proof.
  induction 1 as [n|entries0 name child chain n Hin Hreach IH];
    intros entries dir -> Hex Hpkg.
  - rewrite discovered_Dir. apply in_flat_map.
    exists ("package.json", File). split; [exact Hpkg|]. now left.
  - rewrite discovered_Dir. apply in_flat_map.
    exists (name, child). split; [exact Hin|].
    unfold has_excluded in Hex. cbn [existsb] in Hex.
    apply orb_false_iff in Hex. destruct Hex as [Hname Hex].
    unfold contribution. cbn [fst snd]. rewrite Hname.
    rewrite (reaches_directory _ _ _ Hreach).
    exact (IH entries (join [dir; name]) eq_refl Hex Hpkg).
Qed.

(** X1. findAllPackageJsonDirs finds exactly the directories that list a
    non-directory [package.json] and are reached from the start through
    readable directories whose names are not excluded. *)
Theorem discovered_exactly (join : list string -> string) (dir : string)
    (node : fsnode) (r : string) :
  In r (snd (findAllPackageJsonDirs join dir node [])) <->
  exists chain entries,
    r = path_of join dir chain /\
    has_excluded chain = false /\
    reaches node chain (Dir entries) /\
    In ("package.json", File) entries.
Proof.
  fold (discovered join dir node). split.
  - apply discovered_provenance.
  - intros (chain & entries & -> & Hex & Hreach & Hpkg).
    now apply (discovered_complete join node chain (Dir entries) Hreach entries).
Qed.

Lemma path_of_root_only (join : list string -> string) (root : string)
    (node : fsnode) (chain : list string) :
  NoDup (map (path_of join root) (locations node)) ->
  In chain (locations node) ->
  path_of join root chain = root -> chain = [].
Proof.
  intros Hnd Hin Heq.
  apply (NoDup_map_injective (path_of join root) (locations node) Hnd);
    [exact Hin | destruct node; now left | exact Heq].
Qed.

(** X2. In a tree where distinct places have distinct paths, getWorkspaceDirs
    returns exactly the workspaces strictly below the root: the root is left
    out even when it has a descriptor, and every nested workspace stays. *)
Theorem getWorkspaceDirs_exactly (w : World) (dirs : list string) (r : string) :
  NoDup (map (path_of (join w) (cwd w)) (locations (tree w))) ->
  getWorkspaceDirs w = Ok dirs ->
  ~ In (cwd w) dirs /\
  (In r dirs <->
   exists chain entries,
     chain <> [] /\
     r = path_of (join w) (cwd w) chain /\
     has_excluded chain = false /\
     reaches (tree w) chain (Dir entries) /\
     In ("package.json", File) entries).
Proof.
  intros Hnd H. rewrite getWorkspaceDirs_eq in H. injection H as <-. split.
  - intros Hin. apply filter_In in Hin. destruct Hin as [_ Hin].
    now rewrite String.eqb_refl in Hin.
  - rewrite filter_In. split.
    + intros [Hin Hne]. apply discovered_provenance in Hin.
      destruct Hin as (chain & entries & -> & Hex & Hreach & Hpkg).
      exists chain, entries. repeat split; try assumption.
      intros ->. cbn in Hne. now rewrite String.eqb_refl in Hne.
    + intros (chain & entries & Hne & -> & Hex & Hreach & Hpkg). split.
      * now apply (discovered_complete _ _ _ _ Hreach entries).
      * apply negb_true_iff, String.eqb_neq. intros Heq. apply Hne.
        apply (path_of_root_only (join w) (cwd w) (tree w)); try assumption.
        now apply (reaches_locations _ _ _ Hreach).
Qed.

Lemma getWorkspaceDirs_exactly_witness :
  ~ In "/proj" ["/proj/apps/app1"; "/proj/apps/app2"] /\
  (In "/proj/apps/app2" ["/proj/apps/app1"; "/proj/apps/app2"] <->
   exists chain entries,
     chain <> [] /\
     "/proj/apps/app2" = path_of posix_join "/proj" chain /\
     has_excluded chain = false /\
     reaches sample_tree chain (Dir entries) /\
     In ("package.json", File) entries).
Proof.
  apply (getWorkspaceDirs_exactly world_sample_tree
           ["/proj/apps/app1"; "/proj/apps/app2"] "/proj/apps/app2").
  - apply distinct_NoDup. vm_compute. reflexivity.
  - reflexivity.
Defined.

Lemma discovered_chains (join : list string -> string) (node : fsnode) :
  forall dir,
    discovered join dir node = map (path_of join dir) (workspace_chains node).
Proof.
  induction node as [ | |entries IH] using fsnode_induction; intros dir;
    try reflexivity.
  rewrite discovered_Dir. cbn [workspace_chains].
  induction IH as [|[name entry] rest Hentry _ IHrest]; [reflexivity|].
  cbn [flat_map fst snd]. rewrite map_app, IHrest. f_equal.
  unfold contribution. cbn [fst snd].
  destruct (is_excluded name); [reflexivity|].
  destruct (isDirectory entry).
  - rewrite Hentry, map_map. reflexivity.
  - destruct (String.eqb name "package.json"); reflexivity.
Qed.

Lemma workspace_chains_locations (node : fsnode) :
  forall chain, In chain (workspace_chains node) -> In chain (locations node).
Proof.
  induction node as [ | |entries IH] using fsnode_induction; intros chain Hin;
    try contradiction.
  cbn [workspace_chains locations] in *. apply in_flat_map in Hin.
  destruct Hin as ([name entry] & He & Hin). cbn [fst snd] in Hin.
  destruct (is_excluded name); [contradiction|].
  destruct (isDirectory entry).
  - apply in_map_iff in Hin. destruct Hin as (c & <- & Hc).
    right. apply in_flat_map. exists (name, entry). split; [exact He|].
    cbn [fst snd]. apply in_map. rewrite Forall_forall in IH.
    exact (IH _ He c Hc).
  - destruct (String.eqb name "package.json"); [|contradiction].
    destruct Hin as [<-|[]]. now left.
Qed.

Lemma workspace_chains_NoDup (node : fsnode) :
  well_named node = true -> NoDup (workspace_chains node).
Proof.
  induction node as [ | |entries IH] using fsnode_induction; intros Hw;
    try constructor.
  cbn [workspace_chains well_named] in *. apply andb_prop in Hw.
  destruct Hw as [Hd Hall].
  induction IH as [|[name entry] rest Hentry _ IHrest]; [constructor|].
  cbn [map fst snd forallb flat_map] in *.
  apply distinct_cons in Hd. destruct Hd as [Hname Hd].
  apply andb_prop in Hall. destruct Hall as [Hhere Hall].
  apply andb_prop in Hhere. destruct Hhere as [_ Hwentry].
  apply NoDup_app.
  - destruct (is_excluded name); [constructor|].
    destruct (isDirectory entry).
    + apply NoDup_map_on; [now apply Hentry|].
      intros x y _ _ E. now injection E.
    + destruct (String.eqb name "package.json"); repeat constructor.
      intros [].
  - now apply IHrest.
  - intros chain Hin Hin'. apply in_flat_map in Hin'.
    destruct Hin' as ([name' entry'] & He' & Hin'). cbn [fst snd] in Hin'.
    assert (Hne : name <> name').
    { intros ->. apply Hname. apply in_map_iff. now exists (name', entry'). }
    destruct (is_excluded name); [contradiction|].
    destruct (is_excluded name'); [contradiction|].
    destruct (isDirectory entry), (isDirectory entry').
    + apply in_map_iff in Hin, Hin'.
      destruct Hin as (c & <- & _), Hin' as (c' & E & _).
      injection E as E _. congruence.
    + apply in_map_iff in Hin. destruct Hin as (c & <- & _).
      destruct (String.eqb name' "package.json"); [|contradiction].
      destruct Hin' as [E|[]]. discriminate.
    + apply in_map_iff in Hin'. destruct Hin' as (c' & <- & _).
      destruct (String.eqb name "package.json"); [|contradiction].
      destruct Hin as [E|[]]. discriminate.
    + destruct (String.eqb name "package.json") eqn:E; [|contradiction].
      destruct (String.eqb name' "package.json") eqn:E'; [|contradiction].
      apply String.eqb_eq in E, E'. congruence.
Qed.

(** X3. With [path.join] as on POSIX and a well named tree,
    findAllPackageJsonDirs lists no directory twice. *)
Theorem discovered_once (root : string) (node : fsnode) :
  well_named node = true ->
  NoDup (snd (findAllPackageJsonDirs posix_join root node [])).
Proof.
  intros Hw. fold (discovered posix_join root node).
  rewrite discovered_chains. apply NoDup_map_on.
  - now apply workspace_chains_NoDup.
  - intros x y Hx Hy. apply path_of_posix_injective;
      apply (locations_slash_free node Hw); now apply workspace_chains_locations.
Qed.

Lemma discovered_once_witness :
  NoDup (snd (findAllPackageJsonDirs posix_join "/proj" monorepo_tree [])).
Proof. apply (discovered_once "/proj" monorepo_tree). reflexivity. Defined.

(** ** More on license resolution *)

(** X4. getLicensesFromPackageJson never raises, and returns the empty
    mapping when the descriptor of the workspace cannot be read or parsed,
    when it is [null], and when its [dependencies] are absent, falsy, a
    number or a boolean. *)
Theorem getLicensesFromPackageJson_absorbs_failures (w : World) (dir : string) :
  (exists licenses, getLicensesFromPackageJson w dir = Ok licenses) /\
  (readFileSync w (join w [dir; "package.json"]) = None ->
   getLicensesFromPackageJson w dir = Ok []) /\
  (forall text,
      readFileSync w (join w [dir; "package.json"]) = Some text ->
      JSON_parse w text = None \/ JSON_parse w text = Some JNull ->
      getLicensesFromPackageJson w dir = Ok []) /\
  (forall text packageJson d,
      readFileSync w (join w [dir; "package.json"]) = Some text ->
      JSON_parse w text = Some packageJson ->
      get packageJson "dependencies" = Ok d ->
      match d with
      | None => True
      | Some (JNumber _) | Some (JBool _) => True
      | Some v => truthy v = false
      end ->
      getLicensesFromPackageJson w dir = Ok []).
Proof.
  split; [eexists; apply getLicensesFromPackageJson_eq|].
  unfold getLicensesFromPackageJson. split; [|split].
  - intros ->. reflexivity.
  - intros text Hr Hp. rewrite Hr. cbn [lift bind].
    destruct Hp as [->| ->]; reflexivity.
  - intros text packageJson d Hr Hp Hd. rewrite Hr. cbn [lift bind].
    rewrite Hp. cbn [lift bind]. rewrite Hd. cbn [bind].
    destruct d as [[|b|t|s|items|fields]|]; cbn [or_else];
      try reflexivity; try discriminate.
    + destruct b; reflexivity.
    + destruct (truthy (JNumber t)); reflexivity.
    + intros ->. reflexivity.
Qed.

Lemma getLicensesFromPackageJson_absorbs_failures_witness :
  getLicensesFromPackageJson world_monorepo "/proj/apps/nowhere" = Ok [] /\
  getLicensesFromPackageJson world_monorepo "/proj" = Ok [].
Proof.
  split.
  - apply (proj1 (proj2 (getLicensesFromPackageJson_absorbs_failures
                           world_monorepo "/proj/apps/nowhere"))).
    reflexivity.
  - apply (proj2 (proj2 (proj2 (getLicensesFromPackageJson_absorbs_failures
                                  world_monorepo "/proj")))
             "root" (JObject [("name", JString "root")]) None);
      reflexivity || exact I.
Defined.

Lemma split_last_entry {A} (before after es : list A) (x e : A) :
  before ++ x :: after = es ++ [e] ->
  (after = [] /\ before = es /\ x = e) \/
  (exists after', after = after' ++ [e] /\ es = before ++ x :: after').
Proof.
  intros H. destruct after as [|a after _] using rev_ind.
  - left. apply app_inj_tail in H. now destruct H.
  - right. exists after.
    change (before ++ x :: after ++ [a]) with (before ++ (x :: after) ++ [a]) in H.
    rewrite app_assoc in H. apply app_inj_tail in H. destruct H as [<- ->].
    now split.
Qed.

Lemma fold_resolveInto_lookup (w : World) (dir key : string) info entries :
  assoc key (fold_left (resolveInto w dir) entries []) = Some info <->
  exists before name range after,
    entries = before ++ (name, range) :: after /\
    resolveDependency w dir name = Ok (key, info) /\
    forall e info', In e after ->
                    resolveDependency w dir (fst e) <> Ok (key, info').
Proof.
  induction entries as [|[n r] es IH] using rev_ind.
  - split; [discriminate|]. intros (before & name & range & after & H & _).
    now destruct before.
  - rewrite fold_left_app. cbn [fold_left]. unfold resolveInto at 1. cbn [fst].
    destruct (resolveDependency w dir n) as [[k i]|] eqn:E.
    + destruct (String.eqb k key) eqn:Ek.
      * apply String.eqb_eq in Ek. subst k. rewrite assoc_obj_set_same. split.
        -- intros H. injection H as ->. exists es, n, r, []. repeat split.
           ++ exact E.
           ++ intros e info' [].
        -- intros (before & name & range & after & H & Hres & Hafter).
           symmetry in H. apply split_last_entry in H.
           destruct H as [(-> & -> & H)|(after' & -> & ->)].
           ++ injection H as -> ->. congruence.
           ++ exfalso. apply (Hafter (n, r) i); [|exact E].
              apply in_or_app. right. now left.
      * apply String.eqb_neq in Ek. rewrite assoc_obj_set_other by exact Ek.
        rewrite IH. split.
        -- intros (before & name & range & after & -> & Hres & Hafter).
           exists before, name, range, (after ++ [(n, r)]). repeat split.
           ++ now rewrite <- app_assoc.
           ++ exact Hres.
           ++ intros e info' Hin. apply in_app_or in Hin.
              destruct Hin as [Hin|[<-|[]]]; [now apply Hafter|].
              cbn [fst]. rewrite E. congruence.
        -- intros (before & name & range & after & H & Hres & Hafter).
           symmetry in H. apply split_last_entry in H.
           destruct H as [(-> & -> & H)|(after' & -> & ->)].
           ++ injection H as -> ->. congruence.
           ++ exists before, name, range, after'. repeat split; [exact Hres|].
              intros e info' Hin. apply Hafter. apply in_or_app. now left.
    + rewrite IH. split.
      * intros (before & name & range & after & -> & Hres & Hafter).
        exists before, name, range, (after ++ [(n, r)]). repeat split.
        -- now rewrite <- app_assoc.
        -- exact Hres.
        -- intros e info' Hin. apply in_app_or in Hin.
           destruct Hin as [Hin|[<-|[]]]; [now apply Hafter|].
           cbn [fst]. rewrite E. discriminate.
      * intros (before & name & range & after & H & Hres & Hafter).
        symmetry in H. apply split_last_entry in H.
        destruct H as [(-> & -> & H)|(after' & -> & ->)].
        -- injection H as -> ->. congruence.
        -- exists before, name, range, after'. repeat split; [exact Hres|].
           intros e info' Hin. apply Hafter. apply in_or_app. now left.
Qed.

(** X5. In the mapping of a workspace, a key holds what the last declared
    dependency that resolves to that key gives it; a key no declared
    dependency resolves to is absent.  A dependency that does not resolve
    changes nothing. *)
Theorem getLicensesFromPackageJson_lookup (w : World) (dir : string)
    (entries : list (string * json)) (licenses : Licenses) (key : string)
    (info : PackageInfo.t) :
  declared w dir = Ok entries ->
  getLicensesFromPackageJson w dir = Ok licenses ->
  (assoc key licenses = Some info <->
   exists before name range after,
     entries = before ++ (name, range) :: after /\
     resolveDependency w dir name = Ok (key, info) /\
     forall e info', In e after ->
                     resolveDependency w dir (fst e) <> Ok (key, info')).
Proof.
  intros Hd H. rewrite getLicensesFromPackageJson_eq, Hd in H.
  injection H as <-. apply fold_resolveInto_lookup.
Qed.

Lemma getLicensesFromPackageJson_lookup_witness :
  assoc "gpl-pkg@1.0.0" monorepo_licenses =
    Some (PackageInfo.mk (JString "GPL-3.0") (JString "1.0.0")) <->
  exists before name range after,
    [("mit-pkg", JString "^1.0.0"); ("gpl-pkg", JString "^1.0.0");
     ("bare-pkg", JString "^2.0.0"); ("absent-pkg", JString "*")] =
      before ++ (name, range) :: after /\
    resolveDependency world_monorepo "/proj/apps/app1" name =
      Ok ("gpl-pkg@1.0.0", PackageInfo.mk (JString "GPL-3.0") (JString "1.0.0")) /\
    forall e info', In e after ->
      resolveDependency world_monorepo "/proj/apps/app1" (fst e) <>
        Ok ("gpl-pkg@1.0.0", info').
Proof.
  apply (getLicensesFromPackageJson_lookup world_monorepo "/proj/apps/app1");
    reflexivity.
Defined.

Lemma fold_resolveInto_keys (w : World) (dir : string) entries :
  forall licenses,
    map fst (fold_left (resolveInto w dir) entries licenses) =
    fold_left
      (fun seen k => if existsb (String.eqb k) seen then seen else seen ++ [k])
      (resolved_keys w dir entries) (map fst licenses).
Proof.
  induction entries as [|e es IH]; intros licenses; [reflexivity|].
  cbn [fold_left resolved_keys flat_map]. rewrite fold_left_app, IH.
  fold (resolved_keys w dir es). f_equal. unfold resolveInto.
  destruct (resolveDependency w dir (fst e)) as [[k i]|]; [|reflexivity].
  cbn [fold_left]. apply obj_set_keys.
Qed.

(** X6. The keys of the mapping of a workspace come in the order in which
    the declared dependencies first resolve to them. *)
Theorem getLicensesFromPackageJson_key_order (w : World) (dir : string)
    (entries : list (string * json)) (licenses : Licenses) :
  declared w dir = Ok entries ->
  getLicensesFromPackageJson w dir = Ok licenses ->
  map fst licenses = first_occurrences (resolved_keys w dir entries).
Proof.
  intros Hd H. rewrite getLicensesFromPackageJson_eq, Hd in H.
  injection H as <-. apply fold_resolveInto_keys.
Qed.

Lemma getLicensesFromPackageJson_key_order_witness :
  map fst monorepo_licenses =
  first_occurrences
    (resolved_keys world_monorepo "/proj/apps/app1"
       [("mit-pkg", JString "^1.0.0"); ("gpl-pkg", JString "^1.0.0");
        ("bare-pkg", JString "^2.0.0"); ("absent-pkg", JString "*")]).
Proof.
  apply (getLicensesFromPackageJson_key_order world_monorepo "/proj/apps/app1");
    reflexivity.
Defined.

(** ** Merging the workspaces *)


Lemma assoc_None_keys {A} (k : string) (l : list (string * A)) :
  assoc k l = None <-> ~ In k (map fst l).
Proof.
  induction l as [|[k' a'] l IH]; cbn [assoc map fst].
  - split; [intros _ [] | reflexivity].
  - destruct (String.eqb k' k) eqn:E.
    + apply String.eqb_eq in E. split; [discriminate|]. intros H.
      exfalso. apply H. now left.
    + apply String.eqb_neq in E. rewrite IH. split.
      * intros H [Hk|Hk]; [contradiction | now apply H].
      * intros H Hk. apply H. now right.
Qed.

Lemma assoc_Object_assign {A} (k : string) (source : list (string * A)) :
  NoDup (map fst source) ->
  forall target,
    assoc k (Object_assign target source) =
    match assoc k source with
    | Some a => Some a
    | None => assoc k target
    end.
Proof.
  unfold Object_assign.
  induction source as [|[k0 a0] source IH]; intros Hnd target; [reflexivity|].
  cbn [map fst] in Hnd. apply NoDup_cons_iff in Hnd. destruct Hnd as [Hk0 Hnd].
  cbn [fold_left fst snd assoc]. rewrite IH by exact Hnd.
  destruct (String.eqb k0 k) eqn:E.
  - apply String.eqb_eq in E. subst k0.
    apply assoc_None_keys in Hk0. rewrite Hk0. apply assoc_obj_set_same.
  - apply String.eqb_neq in E.
    destruct (assoc k source); [reflexivity|].
    now apply assoc_obj_set_other.
Qed.

Lemma mergeWorkspaces_app (w : World) (before after : list string) :
  forall allLicenses,
    mergeWorkspaces w (before ++ after) allLicenses =
    (merged <- mergeWorkspaces w before allLicenses ;;
     mergeWorkspaces w after merged).
Proof.
  induction before as [|dir before IH]; intros allLicenses; [reflexivity|].
  cbn [app mergeWorkspaces].
  destruct (getLicensesFromPackageJson w dir); [|reflexivity].
  cbn [bind]. apply IH.
Qed.

Lemma fold_resolveInto_NoDup (w : World) (dir : string) entries :
  forall licenses,
    NoDup (map fst licenses) ->
    NoDup (map fst (fold_left (resolveInto w dir) entries licenses)).
Proof.
  induction entries as [|e es IH]; intros licenses H; [exact H|].
  cbn [fold_left]. apply IH. unfold resolveInto.
  destruct (resolveDependency w dir (fst e)) as [[k i]|]; [|exact H].
  now apply obj_set_NoDup.
Qed.

Lemma workspace_keys_NoDup (w : World) (dir : string) licenses :
  getLicensesFromPackageJson w dir = Ok licenses -> NoDup (map fst licenses).
Proof.
  rewrite getLicensesFromPackageJson_eq. intros H. injection H as <-.
  destruct (declared w dir) as [entries|]; [|constructor].
  apply fold_resolveInto_NoDup. constructor.
Qed.

Lemma mergeWorkspaces_keeps (w : World) (key : string) (dirs : list string) :
  (forall dir licenses, In dir dirs ->
                        getLicensesFromPackageJson w dir = Ok licenses ->
                        assoc key licenses = None) ->
  forall allLicenses merged,
    mergeWorkspaces w dirs allLicenses = Ok merged ->
    assoc key merged = assoc key allLicenses.
Proof.
  induction dirs as [|dir dirs IH]; intros Hnone allLicenses merged H.
  - now injection H as <-.
  - cbn [mergeWorkspaces] in H.
    destruct (getLicensesFromPackageJson w dir) as [licenses|] eqn:E;
      [|discriminate].
    cbn [bind] in H. apply IH in H.
    + rewrite H, assoc_Object_assign by now apply (workspace_keys_NoDup w dir).
      now rewrite (Hnone dir licenses (or_introl eq_refl) E).
    + intros d l Hd. apply Hnone. now right.
Qed.

(** *** Dependencies without a license *)




(** X8. When several workspaces resolve the same key, the merged mapping of
    getLicenses holds what the last of them, in discovery order, gives it. *)
Theorem getLicenses_last_workspace_wins (w : World)
    (before after : list string) (dir key : string) (licenses : Licenses)
    (info : PackageInfo.t) :
  getWorkspaceDirs w = Ok (before ++ dir :: after) ->
  getLicensesFromPackageJson w dir = Ok licenses ->
  assoc key licenses = Some info ->
  (forall d l, In d after -> getLicensesFromPackageJson w d = Ok l ->
               assoc key l = None) ->
  exists merged, getLicenses w = Ok merged /\ assoc key merged = Some info.
Proof.
  intros Hdirs Hl Hk Hafter.
  destruct (getLicenses_well_formed w) as (merged & Hm & _).
  exists merged. split; [exact Hm|].
  unfold getLicenses in Hm. rewrite Hdirs in Hm. cbn [bind] in Hm.
  rewrite mergeWorkspaces_app in Hm.
  destruct (mergeWorkspaces w before []) as [m1|]; [|discriminate].
  cbn [bind mergeWorkspaces] in Hm. rewrite Hl in Hm. cbn [bind] in Hm.
  rewrite (mergeWorkspaces_keeps w key after Hafter _ _ Hm).
  rewrite assoc_Object_assign by now apply (workspace_keys_NoDup w dir).
  now rewrite Hk.
Qed.

Lemma getLicenses_last_workspace_wins_witness :
  getLicensesFromPackageJson world_clash "/proj/apps/app1" =
    Ok [("dup@1.0.0", PackageInfo.mk (JString "UNKNOWN") (JString "1.0.0"))] /\
  getLicensesFromPackageJson world_clash "/proj/apps/app2" =
    Ok [("dup@1.0.0", PackageInfo.mk (JString "MIT") (JString "1.0.0"))] /\
  exists merged,
    getLicenses world_clash = Ok merged /\
    assoc "dup@1.0.0" merged =
      Some (PackageInfo.mk (JString "MIT") (JString "1.0.0")).
Proof.
  split; [reflexivity|]. split; [reflexivity|].
  apply (getLicenses_last_workspace_wins world_clash
           ["/proj/apps/app1"] ["/proj/apps/app3"] "/proj/apps/app2"
           "dup@1.0.0"
           [("dup@1.0.0", PackageInfo.mk (JString "MIT") (JString "1.0.0"))]).
  - reflexivity.
  - reflexivity.
  - reflexivity.
  - intros d l [<-|[]] H. vm_compute in H. injection H as <-. reflexivity.
Defined.

Lemma Object_assign_In {A} (source : list (string * A)) :
  forall target e,
    In e (Object_assign target source) -> In e target \/ In e source.
Proof.
  unfold Object_assign.
  induction source as [|[k a] source IH]; intros target e H; [now left|].
  cbn [fold_left fst snd] in H. apply IH in H. destruct H as [H|H].
  - apply obj_set_In in H. destruct H as [->|H]; [right; now left | now left].
  - right. now right.
Qed.

Lemma Object_assign_keys {A} (source : list (string * A)) :
  forall target k,
    In k (map fst target) \/ In k (map fst source) ->
    In k (map fst (Object_assign target source)).
Proof.
  unfold Object_assign.
  induction source as [|[k0 a0] source IH]; intros target k H.
  - destruct H as [H|[]]. exact H.
  - cbn [fold_left fst snd]. apply IH. rewrite obj_set_keys.
    destruct H as [H|[<-|H]].
    + left. destruct (existsb _ _); [exact H | apply in_or_app; now left].
    + left. destruct (existsb (String.eqb k0) (map fst target)) eqn:E.
      * apply existsb_exists in E. destruct E as (x & Hx & E).
        apply String.eqb_eq in E. now subst.
      * apply in_or_app. right. now left.
    + now right.
Qed.

Lemma mergeWorkspaces_entries (w : World) (dirs : list string) :
  forall allLicenses merged,
    mergeWorkspaces w dirs allLicenses = Ok merged ->
    (forall e, In e merged ->
       In e allLicenses \/
       exists dir licenses,
         In dir dirs /\ getLicensesFromPackageJson w dir = Ok licenses /\
         In e licenses) /\
    (forall k,
       In k (map fst allLicenses) \/
       (exists dir licenses,
          In dir dirs /\ getLicensesFromPackageJson w dir = Ok licenses /\
          In k (map fst licenses)) ->
       In k (map fst merged)).
Proof.
  induction dirs as [|dir dirs IH]; intros allLicenses merged H.
  - injection H as <-. split.
    + intros e He. now left.
    + intros k [Hk|(d & l & [] & _)]. exact Hk.
  - cbn [mergeWorkspaces] in H.
    destruct (getLicensesFromPackageJson w dir) as [licenses|] eqn:E;
      [|discriminate].
    cbn [bind] in H. apply IH in H. destruct H as [Hfrom Hkeys]. split.
    + intros e He. apply Hfrom in He.
      destruct He as [He|(d & l & Hd & Hl & He)].
      * apply Object_assign_In in He. destruct He as [He|He]; [now left|].
        right. exists dir, licenses. repeat split; [now left | exact E | exact He].
      * right. exists d, l. repeat split; [now right | exact Hl | exact He].
    + intros k Hk. apply Hkeys.
      destruct Hk as [Hk|(d & l & [<-|Hd] & Hl & Hk)].
      * left. apply Object_assign_keys. now left.
      * left. apply Object_assign_keys. right. congruence.
      * right. now exists d, l.
Qed.

(** X7. Every entry of what getLicenses returns is what a dependency
    declared by a discovered workspace resolves to there: its license and its
    version are truthy, and its key is the name of that dependency, ["@"] and
    the text of its own version. *)
Theorem getLicenses_entry_shape (w : World) (dirs : list string)
    (licenses : Licenses) (key : string) (info : PackageInfo.t) :
  getWorkspaceDirs w = Ok dirs ->
  getLicenses w = Ok licenses ->
  In (key, info) licenses ->
  truthy (PackageInfo.license info) = true /\
  truthy (PackageInfo.version info) = true /\
  exists dir entries name range versionText,
    In dir dirs /\
    declared w dir = Ok entries /\
    In (name, range) entries /\
    resolveDependency w dir name = Ok (key, info) /\
    ToString (PackageInfo.version info) = Ok versionText /\
    key = (name ++ "@" ++ versionText)%string.
Proof.
  intros Hd Hm Hin. unfold getLicenses in Hm. rewrite Hd in Hm.
  cbn [bind] in Hm. apply mergeWorkspaces_entries in Hm.
  destruct Hm as [Hfrom _].
  destruct (Hfrom (key, info) Hin) as [[]|(dir & l & Hdir & Hl & He)].
  rewrite getLicensesFromPackageJson_eq in Hl. injection Hl as <-.
  destruct (declared w dir) as [entries|] eqn:Hdecl; [|destruct He].
  apply fold_resolveInto_provenance in He.
  destruct He as [[]|(name & range & Hentry & Hres)].
  pose proof (resolveDependency_Ok w dir name key info Hres) as E.
  destruct E as (dep & lic & v & vt & _ & _ & _ & Ht & Hkey & Hinfo).
  subst info. cbn [PackageInfo.license PackageInfo.version] in *.
  repeat split; try apply or_else_UNKNOWN_truthy.
  exists dir, entries, name, range, vt. repeat split; assumption.
Qed.

Lemma getLicenses_entry_shape_witness :
  truthy (JString "UNKNOWN") = true /\
  truthy (JString "2.1.0") = true /\
  exists dir entries name range versionText,
    In dir ["/proj/apps/app1"; "/proj/apps/app2"] /\
    declared world_monorepo dir = Ok entries /\
    In (name, range) entries /\
    resolveDependency world_monorepo dir name =
      Ok ("bare-pkg@2.1.0",
          PackageInfo.mk (JString "UNKNOWN") (JString "2.1.0")) /\
    ToString (JString "2.1.0") = Ok versionText /\
    "bare-pkg@2.1.0" = (name ++ "@" ++ versionText)%string.
Proof.
  apply (getLicenses_entry_shape world_monorepo
           ["/proj/apps/app1"; "/proj/apps/app2"] monorepo_licenses
           "bare-pkg@2.1.0"
           (PackageInfo.mk (JString "UNKNOWN") (JString "2.1.0"))).
  - reflexivity.
  - reflexivity.
  - simpl. right. right. left. reflexivity.
Defined.

(** X9. What getLicenses returns holds nothing but entries of the mappings
    of the discovered workspaces, and it has every key any of them has. *)
Theorem getLicenses_is_the_union (w : World) (dirs : list string)
    (merged : Licenses) :
  getWorkspaceDirs w = Ok dirs ->
  getLicenses w = Ok merged ->
  (forall e, In e merged ->
     exists dir licenses,
       In dir dirs /\ getLicensesFromPackageJson w dir = Ok licenses /\
       In e licenses) /\
  (forall dir licenses k,
     In dir dirs -> getLicensesFromPackageJson w dir = Ok licenses ->
     In k (map fst licenses) -> In k (map fst merged)).
Proof.
  intros Hd Hm. unfold getLicenses in Hm. rewrite Hd in Hm. cbn [bind] in Hm.
  apply mergeWorkspaces_entries in Hm. destruct Hm as [Hfrom Hkeys]. split.
  - intros e He. destruct (Hfrom e He) as [[]|H]. exact H.
  - intros dir licenses k Hdir Hl Hk. apply Hkeys. right. now exists dir, licenses.
Qed.

Lemma getLicenses_is_the_union_witness :
  (forall e, In e monorepo_licenses ->
     exists dir licenses,
       In dir ["/proj/apps/app1"; "/proj/apps/app2"] /\
       getLicensesFromPackageJson world_monorepo dir = Ok licenses /\
       In e licenses) /\
  (forall dir licenses k,
     In dir ["/proj/apps/app1"; "/proj/apps/app2"] ->
     getLicensesFromPackageJson world_monorepo dir = Ok licenses ->
     In k (map fst licenses) -> In k (map fst monorepo_licenses)).
Proof.
  apply (getLicenses_is_the_union world_monorepo
           ["/proj/apps/app1"; "/proj/apps/app2"] monorepo_licenses);
    reflexivity.
Defined.

(** ** More on isLicenseAllowed *)

Lemma same_but_case_empty (s t : string) :
  same_but_case s t = true -> String.eqb s "" = String.eqb t "".
Proof. destruct s, t; try discriminate; reflexivity. Qed.

Lemma same_but_case_toUpperCase (s t : string) :
  same_but_case s t = true -> toUpperCase s = toUpperCase t.
Proof.
  revert t. induction s as [|c s IH]; intros [|d t] H; try discriminate;
    [reflexivity|].
  cbn [same_but_case] in H. apply andb_prop in H. destruct H as [Hc H].
  apply Ascii.eqb_eq in Hc. cbn [toUpperCase]. now rewrite Hc, (IH t H).
Qed.

Lemma same_but_case_match_here (lit s t : string) :
  same_but_case s t = true -> match_here lit s = match_here lit t.
Proof.
  revert s t. induction lit as [|p lit IH]; intros s t H;
    [now destruct s, t|].
  destruct s as [|c s], t as [|d t]; try discriminate; [reflexivity|].
  cbn [same_but_case] in H. apply andb_prop in H. destruct H as [Hc H].
  apply Ascii.eqb_eq in Hc. cbn [match_here]. now rewrite Hc, (IH s t H).
Qed.

(** A pattern with the flag [i] tells apart no two texts that are the same
    but for the case of their letters. *)
Lemma same_but_case_regex_test_i (lit s t : string) :
  same_but_case s t = true -> regex_test_i lit s = regex_test_i lit t.
Proof.
  revert t. induction s as [|c s IH]; intros [|d t] H; try discriminate;
    [reflexivity|].
  cbn [regex_test_i].
  rewrite (same_but_case_match_here lit (String c s) (String d t) H).
  cbn [same_but_case] in H. apply andb_prop in H. destruct H as [_ H].
  now rewrite (IH t H).
Qed.

Lemma same_but_case_existsb (n : string) (allow1 allow2 : list string) :
  Forall2 (fun a1 a2 => same_but_case a1 a2 = true) allow1 allow2 ->
  existsb (fun a => includes n (toUpperCase a)) allow1 =
  existsb (fun a => includes n (toUpperCase a)) allow2.
Proof.
  induction 1 as [|a1 a2 allow1 allow2 Ha _ IH]; [reflexivity|].
  cbn [existsb]. now rewrite (same_but_case_toUpperCase a1 a2 Ha), IH.
Qed.

(** X10. isLicenseAllowed tells apart neither two licenses nor two
    allowlists that are the same but for the case of the letters a to z, the
    sentinel aside: the test for ["UNKNOWN"] is an exact one, so ["unknown"]
    is a license like any other. *)
Theorem isLicenseAllowed_case_insensitive (L1 L2 : string)
    (allow1 allow2 : list string) :
  same_but_case L1 L2 = true ->
  Forall2 (fun a1 a2 => same_but_case a1 a2 = true) allow1 allow2 ->
  L1 <> "UNKNOWN" -> L2 <> "UNKNOWN" ->
  isLicenseAllowed (JString L1) (string_array allow1) =
  isLicenseAllowed (JString L2) (string_array allow2) /\
  isLicenseAllowed (JString "unknown") (string_array ["UNKNOWN"]) = Ok true /\
  isLicenseAllowed (JString "UNKNOWN") (string_array ["UNKNOWN"]) = Ok false.
Proof.
  intros HL Ha H1 H2. split; [|split; reflexivity].
  rewrite !isLicenseAllowed_strings.
  rewrite (same_but_case_empty L1 L2 HL).
  rewrite (same_but_case_toUpperCase L1 L2 HL).
  rewrite (same_but_case_existsb (toUpperCase L2) allow1 allow2 Ha).
  assert (Hp : matches_prohibited L1 = matches_prohibited L2).
  { unfold matches_prohibited.
    induction PROHIBITED_PATTERNS as [|pattern rest IH]; [reflexivity|].
    cbn [existsb]. now rewrite (same_but_case_regex_test_i pattern L1 L2 HL), IH. }
  rewrite Hp. apply String.eqb_neq in H1, H2. now rewrite H1, H2.
Qed.

Lemma isLicenseAllowed_case_insensitive_witness :
  isLicenseAllowed (JString "Apache-2.0") (string_array ["mit"; "APACHE-2.0"]) =
    Ok true /\
  isLicenseAllowed (JString "apache-2.0") (string_array ["MIT"; "Apache-2.0"]) =
    Ok true /\
  isLicenseAllowed (JString "Apache-2.0") (string_array ["mit"; "APACHE-2.0"]) =
  isLicenseAllowed (JString "apache-2.0") (string_array ["MIT"; "Apache-2.0"]).
Proof.
  split; [reflexivity|]. split; [reflexivity|].
  apply (isLicenseAllowed_case_insensitive "Apache-2.0" "apache-2.0"
           ["mit"; "APACHE-2.0"] ["MIT"; "Apache-2.0"]).
  - reflexivity.
  - repeat constructor.
  - discriminate.
  - discriminate.
Defined.

(** X11. A license is allowed by two allowlists put together exactly when
    one of them allows it, and the empty allowlist allows nothing: adding
    entries to an allowlist never turns an allowed license into a
    violation. *)
Theorem isLicenseAllowed_app (L : string) (allow1 allow2 : list string) :
  exists b1 b2 : bool,
    isLicenseAllowed (JString L) (string_array allow1) = Ok b1 /\
    isLicenseAllowed (JString L) (string_array allow2) = Ok b2 /\
    isLicenseAllowed (JString L) (string_array (allow1 ++ allow2)) =
      Ok (b1 || b2) /\
    isLicenseAllowed (JString L) (string_array []) = Ok false.
Proof.
  rewrite !isLicenseAllowed_strings, existsb_app. cbn [existsb].
  set (c := negb (String.eqb L "") && negb (String.eqb L "UNKNOWN")
            && negb (matches_prohibited L)).
  exists (c && existsb (fun a => includes (toUpperCase L) (toUpperCase a)) allow1),
    (c && existsb (fun a => includes (toUpperCase L) (toUpperCase a)) allow2).
  repeat split.
  - f_equal. destruct c; reflexivity.
  - f_equal. apply andb_false_r.
Qed.

Lemma match_here_regex_test_i (lit s : string) :
  match_here lit s = true -> regex_test_i lit s = true.
Proof. intros H. destruct s; cbn [regex_test_i]; now rewrite H. Qed.

(** Where a pattern matches, so does the pattern without its first
    character. *)
Lemma regex_test_i_tail (p : ascii) (lit s : string) :
  regex_test_i (String p lit) s = true -> regex_test_i lit s = true.
Proof.
  induction s as [|c s IH]; cbn [regex_test_i match_here]; [discriminate|].
  intros H. apply orb_true_iff in H. apply orb_true_iff. right.
  destruct H as [H|H].
  - apply andb_prop in H. destruct H as [_ H].
    now apply match_here_regex_test_i.
  - now apply IH.
Qed.

(** X12. A license matches a prohibited pattern exactly when it matches one
    of [/GPL/i], [/SSPL/i], [/BUSL/i] and [/Copyleft/i]: the patterns
    [/LGPL/i] and [/AGPL/i] reject nothing that [/GPL/i] does not reject. *)
Theorem prohibited_patterns_collapse (L : string) :
  (regex_test_i "LGPL" L = true -> regex_test_i "GPL" L = true) /\
  (regex_test_i "AGPL" L = true -> regex_test_i "GPL" L = true) /\
  matches_prohibited L =
  regex_test_i "GPL" L || regex_test_i "SSPL" L ||
  regex_test_i "BUSL" L || regex_test_i "Copyleft" L.
Proof.
  pose proof (regex_test_i_tail "L" "GPL" L) as HL.
  pose proof (regex_test_i_tail "A" "GPL" L) as HA.
  split; [exact HL|]. split; [exact HA|].
  unfold matches_prohibited. cbn [existsb PROHIBITED_PATTERNS].
  destruct (regex_test_i "GPL" L) eqn:G; [reflexivity|].
  destruct (regex_test_i "LGPL" L);
    [specialize (HL eq_refl); discriminate|].
  destruct (regex_test_i "AGPL" L);
    [specialize (HA eq_refl); discriminate|].
  cbn [orb]. now rewrite orb_false_r, !orb_assoc.
Qed.

Lemma prohibited_patterns_collapse_witness :
  regex_test_i "GPL" "lgpl-3.0" = true /\
  matches_prohibited "lgpl-3.0" =
  regex_test_i "GPL" "lgpl-3.0" || regex_test_i "SSPL" "lgpl-3.0" ||
  regex_test_i "BUSL" "lgpl-3.0" || regex_test_i "Copyleft" "lgpl-3.0".
Proof.
  split.
  - apply (proj1 (prohibited_patterns_collapse "lgpl-3.0")). reflexivity.
  - apply (proj2 (proj2 (prohibited_patterns_collapse "lgpl-3.0"))).
Defined.

Lemma some_allowed_app_strings (n : string) (pre : list string) rest :
  existsb (fun a => includes n (toUpperCase a)) pre = false ->
  some_allowed n (map JString pre ++ rest) = some_allowed n rest.
Proof.
  induction pre as [|a pre IH]; intros H; [reflexivity|].
  cbn [existsb] in H. apply orb_false_iff in H. destruct H as [Ha H].
  cbn [map app some_allowed call_toUpperCase bind]. rewrite Ha. now apply IH.
Qed.

(** X13. For a string license that passes the first tests (not empty, not
    ["UNKNOWN"], no prohibited pattern), isLicenseAllowed raises when the
    allowlist is not an array, and when it is an array raises at the first
    entry that is not a string, unless an earlier entry has matched: entries
    after the first match are not looked at. *)
Theorem isLicenseAllowed_raises (L : string) :
  L <> "" -> L <> "UNKNOWN" -> matches_prohibited L = false ->
  (forall allowedLicenses,
      (forall items, allowedLicenses <> JArray items) ->
      isLicenseAllowed (JString L) allowedLicenses = Throw) /\
  (forall pre x rest,
      existsb (fun a => includes (toUpperCase L) (toUpperCase a)) pre = false ->
      is_string x = false ->
      isLicenseAllowed (JString L) (JArray (map JString pre ++ x :: rest)) =
      Throw) /\
  (forall pre a rest,
      existsb (fun a => includes (toUpperCase L) (toUpperCase a)) pre = false ->
      includes (toUpperCase L) (toUpperCase a) = true ->
      isLicenseAllowed (JString L) (JArray (map JString pre ++ JString a :: rest)) =
      Ok true).
Proof.
  intros HE HU HP.
  assert (Hstart : forall al,
    isLicenseAllowed (JString L) al =
    match al with
    | JArray items => some_allowed (toUpperCase L) items
    | _ => Throw
    end).
  { intros al. unfold isLicenseAllowed, matches_prohibited in *.
    cbn [truthy strict_eq_string].
    apply String.eqb_neq in HE, HU. rewrite HE, HU. cbn [negb orb].
    rewrite some_pattern_matches_string, HP. reflexivity. }
  split; [|split].
  - intros al Hal. rewrite Hstart. destruct al; try reflexivity.
    now destruct (Hal items).
  - intros pre x rest Hpre Hx. rewrite Hstart, some_allowed_app_strings by exact Hpre.
    destruct x; try discriminate; reflexivity.
  - intros pre a rest Hpre Ha. rewrite Hstart, some_allowed_app_strings by exact Hpre.
    cbn [some_allowed call_toUpperCase bind]. now rewrite Ha.
Qed.

Lemma isLicenseAllowed_raises_witness :
  isLicenseAllowed (JString "MIT") (JString "MIT") = Throw /\
  isLicenseAllowed (JString "MIT")
    (JArray (map JString ["ISC"] ++ JNumber "7" :: [JString "MIT"])) = Throw /\
  isLicenseAllowed (JString "MIT")
    (JArray (map JString ["ISC"] ++ JString "MIT" :: [JNumber "7"])) = Ok true.
Proof.
  destruct (isLicenseAllowed_raises "MIT") as (H1 & H2 & H3);
    try discriminate; try reflexivity.
  split; [|split].
  - apply H1. discriminate.
  - apply H2; reflexivity.
  - apply H3; reflexivity.
Defined.

(** ** More on loadConfig and checkLicenses *)

Lemma strings_of_items (items : list json) :
  forallb is_string items = true -> exists l, items = map JString l.
Proof.
  induction items as [|x items IH]; intros H; [now exists []|].
  cbn [forallb] in H. apply andb_prop in H. destruct H as [Hx H].
  destruct (IH H) as (l & ->). destruct x; try discriminate.
  now exists (s :: l).
Qed.

(** X14. What loadConfig returns is never falsy.  When the file cannot be
    read or parsed it is the default list.  When the file holds a value of
    the declared shape it is a list of strings: the configured list as it
    is, be it empty, when the file has the field, and the default list only
    when the file has no such field. *)
Theorem loadConfig_returns_strings (w : World) (configPath : option string) :
  (forall v, loadConfig w configPath = Ok v -> truthy v = true) /\
  (parsed_config w configPath = None ->
   loadConfig w configPath = Ok (string_array DEFAULT_ALLOWED_LICENSES)) /\
  (forall config,
      parsed_config w configPath = Some config ->
      has_config_shape config = true ->
      exists allow,
        loadConfig w configPath = Ok (string_array allow) /\
        match get config "allowedLicenses" with
        | Ok (Some configured) => configured = string_array allow
        | _ => allow = DEFAULT_ALLOWED_LICENSES
        end).
Proof.
  rewrite loadConfig_eq. split; [|split].
  - intros v H. injection H as <-.
    destruct (parsed_config w configPath) as [[| | | | |fields]|];
      try reflexivity.
    destruct (assoc "allowedLicenses" fields) as [x|]; [|reflexivity].
    cbn [or_else]. destruct (truthy x) eqn:E; [exact E | reflexivity].
  - intros ->. reflexivity.
  - intros config -> Hshape.
    destruct config as [| | | | |fields]; try discriminate.
    cbn [has_config_shape] in Hshape. cbn [get].
    destruct (assoc "allowedLicenses" fields) as [x|] eqn:E.
    + destruct x as [| | | |items|]; try discriminate.
      destruct (strings_of_items items Hshape) as (l & ->).
      exists l. split; reflexivity.
    + exists DEFAULT_ALLOWED_LICENSES. split; reflexivity.
Qed.

Lemma loadConfig_returns_strings_witness :
  loadConfig world_mit_only (Some "/elsewhere/.licenserc.json") =
    Ok (string_array DEFAULT_ALLOWED_LICENSES) /\
  exists allow,
    loadConfig world_mit_only None = Ok (string_array allow) /\
    JArray [JString "MIT"] = string_array allow.
Proof.
  split.
  - apply (proj1 (proj2 (loadConfig_returns_strings world_mit_only
                           (Some "/elsewhere/.licenserc.json")))).
    reflexivity.
  - apply (proj2 (proj2 (loadConfig_returns_strings world_mit_only None))
             (JObject [("allowedLicenses", JArray [JString "MIT"])]));
      reflexivity.
Defined.

Lemma classify_tallies (allowedLicenses : json) (entries : Licenses) :
  forall summary violations summary' violations',
    classify allowedLicenses entries summary violations =
      Ok (summary', violations') ->
    Summary.allowed summary' =
      Summary.allowed summary + length (filter (accepted allowedLicenses) entries) /\
    Summary.violations summary' =
      Summary.violations summary + length (filter (rejected allowedLicenses) entries) /\
    Forall (fun e => accepted allowedLicenses e = true \/
                     rejected allowedLicenses e = true) entries.
Proof.
  induction entries as [|[packageName info] rest IH];
    intros summary violations summary' violations' H.
  - injection H as <- <-. cbn [filter length]. repeat split; try lia. constructor.
  - cbn [classify] in H. cbn [filter].
    assert (Hacc : accepted allowedLicenses (packageName, info) =
                   match isLicenseAllowed (PackageInfo.license info)
                           allowedLicenses with
                   | Ok true => true
                   | _ => false
                   end) by reflexivity.
    assert (Hrej : rejected allowedLicenses (packageName, info) =
                   match isLicenseAllowed (PackageInfo.license info)
                           allowedLicenses with
                   | Ok false => true
                   | _ => false
                   end) by reflexivity.
    destruct (isLicenseAllowed (PackageInfo.license info) allowedLicenses)
      as [[|]|]; cbn [bind] in H; [| |discriminate];
      apply IH in H; cbn [Summary.allowed Summary.violations] in H;
      destruct H as (Ha & Hv & Hall); rewrite Hacc, Hrej; cbn [length];
      (repeat split; [lia | lia | constructor; [tauto | exact Hall]]).
Qed.

(** X15. In every report of checkLicenses, [allowed] is the number of
    entries isLicenseAllowed accepts and [violations] the number it rejects,
    and every entry is one or the other. *)
Theorem summary_counts (w : World) (options : CheckOptions.t)
    (report : LicenseReport.t) :
  checkLicenses w options = Ok report ->
  let allowedLicenses := LicenseReport.allowedLicenses report in
  let licenses := LicenseReport.licenses report in
  Summary.allowed (LicenseReport.summary report) =
    length (filter (accepted allowedLicenses) licenses) /\
  Summary.violations (LicenseReport.summary report) =
    length (filter (rejected allowedLicenses) licenses) /\
  forall e, In e licenses ->
    isLicenseAllowed (PackageInfo.license (snd e)) allowedLicenses = Ok true \/
    isLicenseAllowed (PackageInfo.license (snd e)) allowedLicenses = Ok false.
Proof.
  intros H. apply checkLicenses_Ok in H.
  destruct H as (licenses & _ & _ & -> & Hc).
  apply classify_tallies in Hc. destruct Hc as (Ha & Hv & Hall).
  cbn [Summary.allowed Summary.violations] in *. cbn zeta.
  repeat split; try assumption.
  intros e He. rewrite Forall_forall in Hall. specialize (Hall e He).
  unfold accepted, rejected in Hall.
  destruct (isLicenseAllowed _ _) as [[|]|]; [now left | now right|].
  destruct Hall; discriminate.
Qed.

Lemma summary_counts_witness :
  1 = length (filter (accepted (string_array DEFAULT_ALLOWED_LICENSES))
                monorepo_licenses) /\
  2 = length (filter (rejected (string_array DEFAULT_ALLOWED_LICENSES))
                monorepo_licenses).
Proof.
  destruct (summary_counts world_monorepo CheckOptions.default monorepo_report)
    as (Ha & Hv & _); [reflexivity|].
  split; [exact Ha | exact Hv].
Defined.

(** X16. A report of checkLicenses has no violation exactly when
    isLicenseAllowed accepts the license of every entry of the mapping. *)
Theorem no_violations_iff_all_allowed (w : World) (options : CheckOptions.t)
    (report : LicenseReport.t) :
  checkLicenses w options = Ok report ->
  (LicenseReport.violations report = [] <->
   forall key info,
     In (key, info) (LicenseReport.licenses report) ->
     isLicenseAllowed (PackageInfo.license info)
       (LicenseReport.allowedLicenses report) = Ok true).
Proof.
  intros H. pose proof H as H'. apply checkLicenses_Ok in H.
  destruct H as (licenses & _ & Hl & <- & Hc).
  destruct (getLicenses_well_formed w) as (l' & Hl' & _ & Ht).
  rewrite Hl in Hl'. injection Hl' as <-.
  pose proof Hc as Hc'.
  apply classify_violations in Hc; [|exact Ht]. cbn [app] in Hc.
  apply classify_tallies in Hc'. destruct Hc' as (_ & _ & Hall).
  rewrite Forall_forall in Hall.
  rewrite Hc. split.
  - intros Hnil key info Hin. specialize (Hall _ Hin).
    destruct Hall as [Hacc|Hrej].
    + unfold accepted in Hacc. cbn [snd] in Hacc.
      now destruct (isLicenseAllowed _ _) as [[|]|].
    + exfalso.
      assert (Hf : In (key, info)
                     (filter (rejected (LicenseReport.allowedLicenses report))
                        (LicenseReport.licenses report)))
        by (apply filter_In; now split).
      apply (in_map violation_of) in Hf. rewrite Hnil in Hf. exact Hf.
  - intros Hok.
    destruct (filter _ _) as [|[key info] rest] eqn:E; [reflexivity|].
    exfalso.
    assert (Hf : In (key, info) ((key, info) :: rest)) by now left.
    rewrite <- E in Hf. apply filter_In in Hf. destruct Hf as [Hin Hrej].
    unfold rejected in Hrej. cbn [snd] in Hrej.
    now rewrite (Hok key info Hin) in Hrej.
Qed.

Lemma no_violations_iff_all_allowed_witness :
  LicenseReport.violations monorepo_report = [] <->
  forall key info,
    In (key, info) monorepo_licenses ->
    isLicenseAllowed (PackageInfo.license info)
      (string_array DEFAULT_ALLOWED_LICENSES) = Ok true.
Proof.
  apply (no_violations_iff_all_allowed world_monorepo CheckOptions.default
           monorepo_report).
  reflexivity.
Defined.

(** ** The console *)

Section Writes.

Context (P : Console.stream * string -> Prop).

Lemma writes_ret {A} (a : A) : writes P (Console.ret a).
Proof. intros out. exists []. split; [now rewrite app_nil_r | constructor]. Qed.

Lemma writes_pure {A} (r : result A) : writes P (Console.pure r).
Proof. intros out. exists []. split; [now rewrite app_nil_r | constructor]. Qed.

Lemma writes_bind {A B} (m : Console.io A) (k : A -> Console.io B) :
  writes P m -> (forall a, writes P (k a)) -> writes P (Console.bind m k).
Proof.
  intros Hm Hk out. unfold Console.bind.
  destruct (Hm out) as (w1 & H1 & P1). destruct (m out) as [[a|] out1].
  - cbn [snd] in H1. subst out1. destruct (Hk a (out ++ w1)) as (w2 & H2 & P2).
    exists (w1 ++ w2). split; [now rewrite H2, app_assoc | now apply Forall_app].
  - cbn [snd] in *. now exists w1.
Qed.

Lemma writes_for_each {A} (l : list A) (body : A -> Console.io unit) :
  (forall x, writes P (body x)) -> writes P (Console.for_each l body).
Proof.
  intros Hb. induction l as [|x l IH]; cbn [Console.for_each].
  - apply writes_ret.
  - apply writes_bind; [apply Hb | intros _; exact IH].
Qed.

End Writes.

Lemma writes_log (P : Console.stream * string -> Prop) (text : string) :
  P (Console.Log, text) -> writes P (Console.log text).
Proof. intros H out. exists [(Console.Log, text)]. split; [reflexivity | now constructor]. Qed.

Lemma writes_error (P : Console.stream * string -> Prop) (text : string) :
  P (Console.Error, text) -> writes P (Console.error text).
Proof.
  intros H out. exists [(Console.Error, text)].
  split; [reflexivity | now constructor].
Qed.

Ltac writes_steps :=
  repeat first
    [ apply writes_ret
    | apply writes_pure
    | apply writes_log; try exact I; try reflexivity
    | apply writes_error; try exact I
    | apply writes_for_each; intros ?
    | apply writes_bind; [|intros ?]
    | match goal with
      | |- writes _ (if ?c then _ else _) => destruct c
      end ].

Lemma writes_print_violation (v : Violation.t) :
  writes (fun _ => True) (Console.print_violation v).
Proof. unfold Console.print_violation. writes_steps. Qed.

Lemma writes_present (JSON_stringify : LicenseReport.t -> string)
    (options : CheckOptions.t) (report : LicenseReport.t) :
  writes (fun _ => True) (Console.present JSON_stringify options report).
Proof.
  unfold Console.present, Console.printSummary, Console.printFailure.
  cbn zeta. writes_steps.
  all: apply writes_print_violation.
Qed.

Lemma writes_listWorkspaces (w : World) :
  writes is_log (Console.listWorkspaces w).
Proof. unfold Console.listWorkspaces. cbn zeta. writes_steps. Qed.

Lemma for_each_log {A} (f : A -> string) (l : list A) :
  forall out,
    Console.for_each l (fun x => Console.log (f x)) out =
    (Ok tt, out ++ map (fun x => (Console.Log, f x)) l).
Proof.
  induction l as [|x l IH]; intros out;
    cbn [Console.for_each Console.bind Console.ret Console.log map].
  - now rewrite app_nil_r.
  - rewrite IH, <- app_assoc. reflexivity.
Qed.

Lemma listWorkspaces_returns (w : World) (out : Console.t) :
  fst (Console.listWorkspaces w out) = Ok tt.
Proof.
  unfold Console.listWorkspaces. rewrite getWorkspaceDirs_eq.
  unfold Console.bind at 1. cbn [Console.pure].
  unfold Console.bind at 1. cbn [Console.log].
  unfold Console.bind at 1. rewrite for_each_log. reflexivity.
Qed.

(** checkLicenses on the console is the verbose block, which writes to
    [console.log] only, then checkLicenses, then the printing of its
    report. *)
Lemma console_checkLicenses_eq (JSON_stringify : LicenseReport.t -> string)
    (w : World) (options : CheckOptions.t) (out : Console.t) :
  exists written,
    Forall is_log written /\
    (CheckOptions.verbose options && negb (CheckOptions.json options)
       && negb (CheckOptions.quiet options) = false -> written = []) /\
    Console.checkLicenses JSON_stringify w options out =
    match checkLicenses w options with
    | Ok report => Console.present JSON_stringify options report (out ++ written)
    | Throw => (Throw, out ++ written)
    end.
Proof.
  unfold Console.checkLicenses, checkLicenses.
  rewrite loadConfig_eq, getWorkspaceDirs_eq.
  set (al := match parsed_config w None with Some _ => _ | None => _ end).
  cbn [bind].
  set (c := CheckOptions.verbose options && _ && _).
  assert (Hv : exists written,
             Forall is_log written /\ (c = false -> written = []) /\
             (if c then Console.listWorkspaces w else Console.ret tt) out =
             (Ok tt, out ++ written)).
  { destruct c.
    - destruct (writes_listWorkspaces w out) as (written & Hs & Hl).
      pose proof (listWorkspaces_returns w out) as Hr.
      exists written. repeat split; [exact Hl | discriminate|].
      destruct (Console.listWorkspaces w out) as [r o]. cbn [fst snd] in *.
      now subst.
    - exists []. repeat split; [constructor|]. cbn. now rewrite app_nil_r. }
  destruct Hv as (written & Hl & Hnil & Hrun). exists written.
  repeat split; [exact Hl | exact Hnil|].
  unfold Console.bind at 1. cbn [Console.pure].
  unfold Console.bind at 1. rewrite Hrun.
  replace (if c then Ok tt else Ok tt) with (@Ok unit tt) by now destruct c.
  cbn [bind]. unfold Console.bind at 1. cbn [Console.pure].
  destruct (getLicenses w) as [licenses|]; [|reflexivity]. cbn [bind].
  unfold Console.bind at 1. cbn [Console.pure].
  destruct (classify al licenses _ _) as [r|]; reflexivity.
Qed.

Lemma bind_Ok {A B} (m : Console.io A) (k : A -> Console.io B) out b out' :
  Console.bind m k out = (Ok b, out') ->
  exists a out1, m out = (Ok a, out1) /\ k a out1 = (Ok b, out').
Proof.
  unfold Console.bind. destruct (m out) as [[a|] out1]; [|discriminate].
  intros H. now exists a, out1.
Qed.

Lemma writes_In {A} (P : Console.stream * string -> Prop) (m : Console.io A)
    out r out' entry :
  writes P m -> m out = (r, out') -> In entry out -> In entry out'.
Proof.
  intros Hw H Hin. destruct (Hw out) as (written & Hs & _).
  rewrite H in Hs. cbn [snd] in Hs. subst out'. apply in_or_app. now left.
Qed.

Lemma present_returns_its_report (JSON_stringify : LicenseReport.t -> string)
    (options : CheckOptions.t) (r report : LicenseReport.t) out out' :
  Console.present JSON_stringify options r out = (Ok report, out') ->
  r = report.
Proof.
  unfold Console.present. cbn zeta.
  destruct (CheckOptions.json options).
  - intros H. apply bind_Ok in H. destruct H as (a & o1 & _ & H).
    unfold Console.ret in H. congruence.
  - destruct (CheckOptions.quiet options && _).
    + unfold Console.ret. congruence.
    + intros H. apply bind_Ok in H. destruct H as (a & o1 & _ & H).
      apply bind_Ok in H. destruct H as (a' & o2 & _ & H).
      unfold Console.ret in H. congruence.
Qed.

Lemma console_checkLicenses_Ok (JSON_stringify : LicenseReport.t -> string)
    (w : World) (options : CheckOptions.t) (out out' : Console.t)
    (report : LicenseReport.t) :
  Console.checkLicenses JSON_stringify w options out = (Ok report, out') ->
  checkLicenses w options = Ok report /\
  exists written,
    Forall is_log written /\
    Console.present JSON_stringify options report (out ++ written) =
    (Ok report, out').
Proof.
  intros H.
  destruct (console_checkLicenses_eq JSON_stringify w options out)
    as (w1 & Hl & _ & E).
  rewrite E in H. destruct (checkLicenses w options) as [r|]; [|discriminate].
  pose proof (present_returns_its_report _ _ _ _ _ _ H) as ->.
  split; [reflexivity|]. now exists w1.
Qed.

(** X18. In JSON mode checkLicenses writes one thing, the report as JSON, to
    [console.log], whether there are violations or not and whatever the
    other options are; if it raises, it has written nothing. *)
Theorem json_mode_prints_the_report
    (JSON_stringify : LicenseReport.t -> string) (w : World)
    (options : CheckOptions.t) (out : Console.t) :
  CheckOptions.json options = true ->
  Console.checkLicenses JSON_stringify w options out =
  match checkLicenses w options with
  | Ok report => (Ok report, out ++ [(Console.Log, JSON_stringify report)])
  | Throw => (Throw, out)
  end.
Proof.
  intros Hj.
  destruct (console_checkLicenses_eq JSON_stringify w options out)
    as (w1 & _ & Hnil & ->).
  rewrite Hj in Hnil. cbn [negb] in Hnil.
  rewrite andb_false_r in Hnil. rewrite (Hnil eq_refl), app_nil_r.
  destruct (checkLicenses w options) as [report|]; [|reflexivity].
  unfold Console.present. cbn zeta. rewrite Hj. reflexivity.
Qed.

Lemma json_mode_prints_the_report_witness :
  Console.checkLicenses (fun _ => "JSON") world_monorepo
    (CheckOptions.mk true true true) [] =
  (Ok monorepo_report, [(Console.Log, "JSON")]).
Proof.
  apply (json_mode_prints_the_report (fun _ => "JSON") world_monorepo
           (CheckOptions.mk true true true) []).
  reflexivity.
Defined.

(** X19. In quiet mode, without JSON, checkLicenses writes nothing at all
    when the report has no violation. *)
Theorem quiet_mode_is_silent_without_violations
    (JSON_stringify : LicenseReport.t -> string) (w : World)
    (options : CheckOptions.t) (report : LicenseReport.t) (out : Console.t) :
  CheckOptions.json options = false ->
  CheckOptions.quiet options = true ->
  checkLicenses w options = Ok report ->
  LicenseReport.violations report = [] ->
  Console.checkLicenses JSON_stringify w options out = (Ok report, out).
Proof.
  intros Hj Hq Hr Hv.
  destruct (console_checkLicenses_eq JSON_stringify w options out)
    as (w1 & _ & Hnil & ->).
  rewrite Hq in Hnil. cbn [negb] in Hnil.
  rewrite andb_false_r in Hnil. rewrite (Hnil eq_refl), app_nil_r, Hr.
  unfold Console.present. cbn zeta. rewrite Hj, Hq, Hv. reflexivity.
Qed.

Lemma quiet_mode_is_silent_without_violations_witness :
  Console.checkLicenses (fun _ => "JSON") world_mit_only
    (CheckOptions.mk false true true) [] =
  (Ok (LicenseReport.mk (Summary.mk 0 0 0) (string_array ["MIT"]) [] []), []).
Proof.
  apply (quiet_mode_is_silent_without_violations (fun _ => "JSON")
           world_mit_only (CheckOptions.mk false true true)); reflexivity.
Defined.

Lemma writes_present_logs (JSON_stringify : LicenseReport.t -> string)
    (options : CheckOptions.t) (report : LicenseReport.t) :
  CheckOptions.json options = true \/ LicenseReport.violations report = [] ->
  writes is_log (Console.present JSON_stringify options report).
Proof.
  intros H. unfold Console.present, Console.printSummary. cbn zeta.
  destruct (CheckOptions.json options); [writes_steps|].
  destruct H as [H|H]; [discriminate|]. rewrite H. cbn [length Nat.ltb Nat.leb].
  writes_steps.
Qed.

(** X20. checkLicenses writes to [console.error] only outside JSON mode and
    only when it has a report with violations; this holds also when it
    raises. *)
Theorem stderr_only_for_violations
    (JSON_stringify : LicenseReport.t -> string) (w : World)
    (options : CheckOptions.t) (r : result LicenseReport.t) (out : Console.t)
    (text : string) :
  Console.checkLicenses JSON_stringify w options [] = (r, out) ->
  In (Console.Error, text) out ->
  CheckOptions.json options = false /\
  exists report,
    checkLicenses w options = Ok report /\
    LicenseReport.violations report <> [].
Proof.
  intros H Hin.
  destruct (console_checkLicenses_eq JSON_stringify w options [])
    as (w1 & Hl & _ & E).
  rewrite E in H. cbn [app] in H.
  assert (Hlogs : forall written,
             Forall is_log written -> ~ In (Console.Error, text) written).
  { intros written HF Hw. rewrite Forall_forall in HF.
    specialize (HF _ Hw). discriminate. }
  destruct (checkLicenses w options) as [report|].
  - destruct (CheckOptions.json options) eqn:Hj;
      [|destruct (LicenseReport.violations report) eqn:Hv].
    + exfalso.
      destruct (writes_present_logs JSON_stringify options report
                  (or_introl Hj) w1) as (w2 & Hs & Hl2).
      rewrite H in Hs. cbn [snd] in Hs. subst out.
      apply (Hlogs (w1 ++ w2)); [now apply Forall_app | exact Hin].
    + exfalso.
      destruct (writes_present_logs JSON_stringify options report
                  (or_intror Hv) w1) as (w2 & Hs & Hl2).
      rewrite H in Hs. cbn [snd] in Hs. subst out.
      apply (Hlogs (w1 ++ w2)); [now apply Forall_app | exact Hin].
    + split; [reflexivity|]. exists report. split; [reflexivity|].
      rewrite Hv. discriminate.
  - exfalso. injection H as _ <-. now apply (Hlogs w1).
Qed.

Lemma stderr_only_for_violations_witness :
  exists report,
    checkLicenses world_monorepo (CheckOptions.mk false false true) = Ok report /\
    LicenseReport.violations report <> [].
Proof.
  refine (proj2 (stderr_only_for_violations (fun _ => "JSON") world_monorepo
                   (CheckOptions.mk false false true)
                   (fst (Console.checkLicenses (fun _ => "JSON") world_monorepo
                           (CheckOptions.mk false false true) []))
                   (snd (Console.checkLicenses (fun _ => "JSON") world_monorepo
                           (CheckOptions.mk false false true) []))
                   "❌ LICENSE COMPLIANCE CHECK FAILED" _ _)).
  - reflexivity.
  - vm_compute. tauto.
Defined.

Lemma for_each_print_violation (violations : list Violation.t) :
  forall out out',
    Console.for_each violations Console.print_violation out = (Ok tt, out') ->
    forall entry,
      In entry out \/
      (exists v, In v violations /\
                 entry = (Console.Error, ("  ❌ " ++ Violation.package v)%string)) ->
      In entry out'.
Proof.
  induction violations as [|v vs IH]; intros out out' H entry Hin.
  - injection H as <-. destruct Hin as [Hin|(v & [] & _)]. exact Hin.
  - cbn [Console.for_each] in H. apply bind_Ok in H.
    destruct H as ([] & o1 & Hv & Hrest).
    apply (IH _ _ Hrest).
    destruct Hin as [Hin|(v' & [<-|Hv'] & ->)].
    + left. now apply (writes_In _ _ _ _ _ _ (writes_print_violation v) Hv).
    + left. unfold Console.print_violation in Hv.
      unfold Console.bind at 1 in Hv. cbn [Console.error] in Hv.
      match type of Hv with
      | ?m ?o = _ =>
          assert (Hw : writes (fun _ => True) m) by writes_steps;
            apply (writes_In _ _ _ _ _ _ Hw Hv)
      end.
      apply in_or_app. right. now left.
    + right. now exists v'.
Qed.

(** X21. Outside JSON mode, also in quiet mode, a run of checkLicenses that
    returns a report with violations has written the failure banner and, for
    every violation, the line with its package to [console.error]. *)
Theorem violations_reach_stderr
    (JSON_stringify : LicenseReport.t -> string) (w : World)
    (options : CheckOptions.t) (report : LicenseReport.t)
    (out out' : Console.t) :
  Console.checkLicenses JSON_stringify w options out = (Ok report, out') ->
  CheckOptions.json options = false ->
  LicenseReport.violations report <> [] ->
  In (Console.Error, "❌ LICENSE COMPLIANCE CHECK FAILED") out' /\
  forall v, In v (LicenseReport.violations report) ->
            In (Console.Error, ("  ❌ " ++ Violation.package v)%string) out'.
Proof.
  intros H Hj Hv. apply console_checkLicenses_Ok in H.
  destruct H as (_ & w1 & _ & H). revert H.
  unfold Console.present. cbn zeta. rewrite Hj.
  destruct (LicenseReport.violations report) as [|v0 vs] eqn:E; [congruence|].
  cbn [length Nat.eqb Nat.ltb Nat.leb]. rewrite andb_false_r.
  intros H. apply bind_Ok in H. destruct H as ([] & o1 & _ & H).
  apply bind_Ok in H. destruct H as ([] & o2 & H & Hret).
  injection Hret as <-.
  unfold Console.printFailure in H. cbn zeta in H.
  do 4 (unfold Console.bind at 1 in H; cbn [Console.error] in H).
  apply bind_Ok in H. destruct H as ([] & o3 & Hloop & Hrest).
  assert (Hkeep : forall entry, In entry o3 -> In entry o2).
  { intros entry. revert Hrest.
    match goal with
    | |- ?m ?o = _ -> _ =>
        assert (Hw : writes (fun _ => True) m) by writes_steps;
          intros Hrest; apply (writes_In _ _ _ _ _ _ Hw Hrest)
    end. }
  split.
  - apply Hkeep. apply (for_each_print_violation _ _ _ Hloop). left.
    rewrite <- !app_assoc. apply in_or_app. right. apply in_or_app. right.
    cbn. tauto.
  - intros v Hin. apply Hkeep. apply (for_each_print_violation _ _ _ Hloop).
    right. now exists v.
Qed.

Lemma violations_reach_stderr_witness :
  In (Console.Error, "❌ LICENSE COMPLIANCE CHECK FAILED")
     (snd (Console.checkLicenses (fun _ => "JSON") world_monorepo
             (CheckOptions.mk false false true) [])) /\
  forall v, In v (LicenseReport.violations monorepo_report) ->
    In (Console.Error, ("  ❌ " ++ Violation.package v)%string)
       (snd (Console.checkLicenses (fun _ => "JSON") world_monorepo
               (CheckOptions.mk false false true) [])).
Proof.
  apply (violations_reach_stderr (fun _ => "JSON") world_monorepo
           (CheckOptions.mk false false true) monorepo_report []).
  - reflexivity.
  - reflexivity.
  - discriminate.
Defined.

Lemma printFailure_raises (allowedLicenses : json)
    (violations : list Violation.t) (out : Console.t) :
  Console.call_join allowedLicenses ", " = Throw ->
  fst (Console.printFailure allowedLicenses violations out) = Throw.
Proof.
  intros Hjoin. unfold Console.printFailure. cbn zeta.
  do 4 (unfold Console.bind at 1; cbn [Console.error]).
  unfold Console.bind at 1.
  destruct (Console.for_each violations Console.print_violation _)
    as [[[]|] o]; [|reflexivity].
  do 3 (unfold Console.bind at 1; cbn [Console.error]).
  unfold Console.bind at 1. cbn [Console.pure]. now rewrite Hjoin.
Qed.

(** X22. With an allowlist that is not an array, as loadConfig returns it for
    a config file of the wrong shape, checkLicenses outside JSON mode raises
    when it comes to print the allowlist: it can return only in quiet mode
    and without violations. *)
Theorem non_array_allowlist_raises
    (JSON_stringify : LicenseReport.t -> string) (w : World)
    (options : CheckOptions.t) (report : LicenseReport.t)
    (out out' : Console.t) :
  CheckOptions.json options = false ->
  (forall items, LicenseReport.allowedLicenses report <> JArray items) ->
  Console.checkLicenses JSON_stringify w options out = (Ok report, out') ->
  CheckOptions.quiet options = true /\ LicenseReport.violations report = [].
Proof.
  intros Hj Hal H. apply console_checkLicenses_Ok in H.
  destruct H as (_ & w1 & _ & H).
  assert (Hjoin : Console.call_join (LicenseReport.allowedLicenses report) ", "
                  = Throw).
  { destruct (LicenseReport.allowedLicenses report); try reflexivity.
    now destruct (Hal items). }
  revert H. unfold Console.present. cbn zeta. rewrite Hj.
  destruct (CheckOptions.quiet options) eqn:Hq.
  - destruct (LicenseReport.violations report) as [|v vs] eqn:Hv;
      [now split|].
    cbn [length Nat.eqb Nat.ltb Nat.leb andb negb].
    unfold Console.bind at 1. cbn [Console.ret]. unfold Console.bind at 1.
    pose proof (printFailure_raises (LicenseReport.allowedLicenses report)
                  (v :: vs) (out ++ w1) Hjoin) as Hf.
    destruct (Console.printFailure _ _ _) as [[[]|] o]; discriminate.
  - cbn [andb negb]. unfold Console.bind at 1.
    unfold Console.printSummary. unfold Console.bind at 1.
    cbn [Console.log]. unfold Console.bind at 1. cbn [Console.pure].
    rewrite Hjoin. discriminate.
Qed.

Lemma non_array_allowlist_raises_witness :
  CheckOptions.quiet (CheckOptions.mk false false true) = true /\
  LicenseReport.violations
    (LicenseReport.mk (Summary.mk 0 0 0) (JString "MIT") [] []) = [].
Proof.
  apply (non_array_allowlist_raises (fun _ => "JSON") world_string_config
           (CheckOptions.mk false false true)
           (LicenseReport.mk (Summary.mk 0 0 0) (JString "MIT") [] []) [] []).
  - reflexivity.
  - discriminate.
  - reflexivity.
Defined.

(** With the allowlist a string and no option set, checkLicenses raises
    after its first line, though there is nothing to check. *)
Example string_allowlist_run :
  Console.checkLicenses (fun _ => "JSON") world_string_config
    CheckOptions.default [] =
  (Throw,
   [(Console.Log,
     ("🔍 Checking dependency licenses for commercial compatibility..."
        ++ Console.nl)%string)]).
Proof. reflexivity. Qed.

(** X23. When [main] of cli.ts reaches [process.exit], checkLicenses has
    returned a report for the options named on the command line, and the
    exit code is 0 if the report has no violation and 1 if it has one. *)
Theorem main_exit_code (JSON_stringify : LicenseReport.t -> string)
    (w : World) (argv : list string) (out out' : Console.t) (code : nat) :
  Console.main JSON_stringify w argv out = (Ok code, out') ->
  exists report,
    checkLicenses w (options_of_argv argv) = Ok report /\
    ((code = 0 /\ LicenseReport.violations report = []) \/
     (code = 1 /\ LicenseReport.violations report <> [])).
Proof.
  unfold Console.main. cbn zeta. intros H. apply bind_Ok in H.
  destruct H as (report & o1 & H & Hret).
  apply console_checkLicenses_Ok in H. destruct H as (Hr & _).
  exists report. split; [exact Hr|].
  unfold Console.ret in Hret. injection Hret as <- _.
  destruct (LicenseReport.violations report); [now left | right].
  split; [reflexivity | discriminate].
Qed.

Lemma main_exit_code_witness :
  exists report,
    checkLicenses world_monorepo
      (options_of_argv ["node"; "cli.js"; "--quiet"]) = Ok report /\
    ((1 = 0 /\ LicenseReport.violations report = []) \/
     (1 = 1 /\ LicenseReport.violations report <> [])).
Proof.
  apply (main_exit_code (fun _ => "JSON") world_monorepo
           ["node"; "cli.js"; "--quiet"] []
           (snd (Console.main (fun _ => "JSON") world_monorepo
                   ["node"; "cli.js"; "--quiet"] [])) 1).
  reflexivity.
Defined.

(** ** When the console run returns *)

Lemma join_items_strings (sep : string) (l : list string) :
  Console.join_items sep (map JString l) = Ok (String.concat sep l).
Proof.
  induction l as [|x l IH]; [reflexivity|].
  cbn [map Console.join_items ToString bind]. destruct l as [|y l];
    [reflexivity|].
  cbn [map] in *. rewrite IH. reflexivity.
Qed.

Lemma print_violation_returns (v : Violation.t) (out : Console.t) :
  printable v -> exists out', Console.print_violation v out = (Ok tt, out').
Proof.
  intros [[tv Hv] [tl Hl]]. unfold Console.print_violation.
  unfold Console.bind at 1. cbn [Console.error].
  unfold Console.bind at 1. cbn [Console.pure]. rewrite Hv.
  unfold Console.bind at 1. cbn [Console.error].
  unfold Console.bind at 1. cbn [Console.pure]. rewrite Hl.
  unfold Console.bind at 1. cbn [Console.error]. eexists. reflexivity.
Qed.

Lemma for_each_print_returns (violations : list Violation.t) :
  Forall printable violations ->
  forall out,
    exists out',
      Console.for_each violations Console.print_violation out = (Ok tt, out').
Proof.
  induction 1 as [|v vs Hv _ IH]; intros out; cbn [Console.for_each].
  - eexists. reflexivity.
  - destruct (print_violation_returns v out Hv) as (o1 & H1).
    unfold Console.bind. rewrite H1. apply IH.
Qed.

Lemma printSummary_returns (allowedLicenses : json) (summary : Summary.t)
    (text : string) (out : Console.t) :
  Console.call_join allowedLicenses ", " = Ok text ->
  exists out', Console.printSummary allowedLicenses summary out = (Ok tt, out').
Proof.
  intros Hjoin. unfold Console.printSummary.
  unfold Console.bind at 1. cbn [Console.log].
  unfold Console.bind at 1. cbn [Console.pure]. rewrite Hjoin.
  do 3 (unfold Console.bind at 1; cbn [Console.log]).
  eexists. reflexivity.
Qed.

Lemma printFailure_returns (allowedLicenses : json)
    (violations : list Violation.t) (text : string) (out : Console.t) :
  Console.call_join allowedLicenses ", " = Ok text ->
  Forall printable violations ->
  exists out',
    Console.printFailure allowedLicenses violations out = (Ok tt, out').
Proof.
  intros Hjoin Hp. unfold Console.printFailure. cbn zeta.
  do 4 (unfold Console.bind at 1; cbn [Console.error]).
  unfold Console.bind at 1.
  match goal with
  | |- context [Console.for_each violations Console.print_violation ?o] =>
      destruct (for_each_print_returns violations Hp o) as (o1 & ->)
  end.
  do 3 (unfold Console.bind at 1; cbn [Console.error]).
  unfold Console.bind at 1. cbn [Console.pure]. rewrite Hjoin.
  do 6 (unfold Console.bind at 1; cbn [Console.error]).
  eexists. reflexivity.
Qed.

Lemma present_returns (JSON_stringify : LicenseReport.t -> string)
    (options : CheckOptions.t) (report : LicenseReport.t) (text : string)
    (out : Console.t) :
  Console.call_join (LicenseReport.allowedLicenses report) ", " = Ok text ->
  Forall printable (LicenseReport.violations report) ->
  exists out',
    Console.present JSON_stringify options report out = (Ok report, out').
Proof.
  intros Hjoin Hp. unfold Console.present. cbn zeta.
  destruct (CheckOptions.json options); [eexists; reflexivity|].
  destruct (CheckOptions.quiet options && _); [eexists; reflexivity|].
  unfold Console.bind at 1.
  assert (H1 : exists o1,
             (if negb (CheckOptions.quiet options)
              then Console.printSummary (LicenseReport.allowedLicenses report)
                     (LicenseReport.summary report)
              else Console.ret tt) out = (Ok tt, o1)).
  { destruct (negb _); [now apply printSummary_returns with text|].
    eexists. reflexivity. }
  destruct H1 as (o1 & ->). unfold Console.bind at 1.
  match goal with
  | |- context [(if ?c then ?a else ?b) o1] =>
      assert (H2 : exists o2, (if c then a else b) o1 = (Ok tt, o2))
  end.
  { destruct (0 <? _)%nat; [now apply printFailure_returns with text|].
    destruct (negb _); eexists; reflexivity. }
  destruct H2 as (o2 & ->). eexists. reflexivity.
Qed.

(** X24. With an allowlist that is a list of strings and licenses that are
    strings where there are any, checkLicenses returns a report in every
    mode, console included. *)
Theorem console_checkLicenses_returns
    (JSON_stringify : LicenseReport.t -> string) (w : World)
    (allow : list string) (options : CheckOptions.t) (out : Console.t) :
  loadConfig w None = Ok (string_array allow) ->
  licenses_are_strings w ->
  exists report out',
    Console.checkLicenses JSON_stringify w options out = (Ok report, out').
Proof.
  intros Hc Hs.
  destruct (checkLicenses_returns w allow options Hc Hs) as (report & Hr).
  destruct (console_checkLicenses_eq JSON_stringify w options out)
    as (w1 & _ & _ & E).
  rewrite E, Hr. exists report.
  pose proof Hr as Hr'. apply checkLicenses_Ok in Hr'.
  destruct Hr' as (licenses & Hal & Hl & Hlic & Hcl).
  rewrite Hc in Hal. injection Hal as Hal.
  apply (present_returns JSON_stringify options report
           (String.concat ", " allow)).
  - rewrite <- Hal. apply join_items_strings.
  - destruct (getLicenses_well_formed w) as (l' & Hl' & _ & Ht).
    rewrite Hl in Hl'. injection Hl' as <-.
    apply classify_violations in Hcl; [|exact Ht]. rewrite Hcl. cbn [app].
    apply Forall_forall. intros v Hv. apply in_map_iff in Hv.
    destruct Hv as ([key info] & <- & Hin). apply filter_In in Hin.
    destruct Hin as [Hin _].
    assert (HF : Forall
      (fun e => is_string (PackageInfo.license (snd e)) = true /\
                exists t, ToString (PackageInfo.version (snd e)) = Ok t)
      licenses).
    { apply (getLicenses_Forall w); [|exact Hl].
      intros dir name k i Eres. cbn [snd].
      apply resolveDependency_Ok in Eres.
      destruct Eres as (dep & l & v & vt & Hi & Hlicense & _ & Hvt & _ & ->).
      cbn [PackageInfo.license PackageInfo.version]. split; [|now exists vt].
      destruct l as [x|]; [|reflexivity].
      cbn [or_else]. destruct (truthy x); [|reflexivity].
      unfold installed in Hi.
      destruct (realpathSync w _) as [real|]; [|discriminate].
      cbn [lift bind] in Hi.
      destruct (readFileSync w real) as [text|]; [|discriminate].
      cbn [lift bind] in Hi.
      destruct (JSON_parse w text) as [d|] eqn:Ep; [|discriminate].
      injection Hi as ->. exact (Hs text dep x Ep Hlicense). }
    rewrite Forall_forall in HF. destruct (HF _ Hin) as [Hstr [t Hver]].
    cbn [snd] in *. unfold violation_of, printable.
    cbn [fst snd Violation.version Violation.license]. split; [now exists t|].
    destruct (PackageInfo.license info); try discriminate. now eexists.
Qed.

Lemma console_checkLicenses_returns_witness :
  exists report out',
    Console.checkLicenses (fun _ => "JSON") world_monorepo
      CheckOptions.default [] = (Ok report, out').
Proof.
  apply (console_checkLicenses_returns (fun _ => "JSON") world_monorepo
           DEFAULT_ALLOWED_LICENSES CheckOptions.default []).
  - reflexivity.
  - intros text value l Hp Hl. revert Hp.
    unfold world_monorepo, world_monorepo_with, JSON_parse, table,
      monorepo_parse. cbn [assoc].
    repeat match goal with
           | |- context [String.eqb ?a text] => destruct (String.eqb a text)
           end;
      intros Hp; try discriminate; injection Hp as <-;
      vm_compute in Hl; try discriminate; injection Hl as <-; reflexivity.
Defined.
